(** * Expression variables and the expression context of the aggregation pipeline

    A shallow embedding of

    - [src/mongo/db/pipeline/variables.h]: [Variables], [Variables::IdGenerator],
      [VariablesParseState];
    - [src/mongo/db/pipeline/expression_context.cpp]: the constructors of
      [ExpressionContext], [checkForInterrupt], [CollatorStash],
      [temporarilyChangeCollator] and [copyWith].

    Objects that the C++ code reaches through pointers (the id generator a
    parse state points to, the expression context a collator stash points to,
    the operation context) live in an explicit [World]; everything that has
    value semantics in C++ is a plain record.  Methods that mutate their object
    or may fail are computations of the monad [M]: they return an outcome and
    the state the call leaves behind, also when the call fails. *)

From Stdlib Require Import ZArith Lia List.
From stdpp Require Import base option gmap strings list.

Open Scope Z_scope.

(** * Part I: the model *)

(** ** Machine integers *)

(** [int64_t] after an arithmetic operation: the two's-complement result the
    compiled code produces. *)
Definition wrap64 (z : Z) : Z := (z + 2 ^ 63) mod 2 ^ 64 - 2 ^ 63.

(** [int] after an arithmetic operation. *)
Definition wrap32 (z : Z) : Z := (z + 2 ^ 31) mod 2 ^ 32 - 2 ^ 31.

Definition INT_MAX : Z := 2 ^ 31 - 1.

(** ** Failures and the state-and-failure monad *)

(** The failures of section 7 of the specification.  [InvariantFailure] is a
    failed [invariant(...)] (a programming error, or the use of an object that
    does not exist); the others are exceptions a caller can observe. *)
Inductive Error : Type :=
  | ConstantViolation
  | UndefinedVariable (name : string)
  | InvalidName (name : string)
  | SystemVariableTypeMismatch
  | Interrupted
  | InvariantFailure.

Inductive result (A : Type) : Type :=
  | Ok (a : A)
  | Err (e : Error).
Arguments Ok {A} _.
Arguments Err {A} _.

Definition is_Ok {A} (r : result A) : bool :=
  match r with Ok _ => true | Err _ => false end.

(** A method running on a state of type [S]: its outcome and the state after
    the call. *)
Definition M (S A : Type) : Type := S -> result A * S.

#[global] Instance M_ret {S} : MRet (M S) := fun A a s => (Ok a, s).

#[global] Instance M_bind {S} : MBind (M S) := fun A B k m s =>
  match m s with
  | (Ok a, s') => k a s'
  | (Err e, s') => (Err e, s')
  end.

Definition throw {S A} (e : Error) : M S A := fun s => (Err e, s).
Definition get {S} : M S S := fun s => (Ok s, s).
Definition put {S} (s : S) : M S unit := fun _ => (Ok tt, s).

(** [n] successive calls of the same method. *)
Fixpoint repeatM {S} (n : nat) (m : M S unit) : M S unit :=
  match n with
  | O => mret tt
  | S n' => _ ← m; repeatM n' m
  end.

(** ** Values, documents and runtime constants *)

(** Modelled from the spec: [Timestamp] (bson/timestamp.h) is not among the
    sources; a timestamp is a pair of seconds and increment, and the
    specification's "unset/null" cluster time is the one whose seconds are
    0. *)
Record Timestamp : Type := mkTimestamp { secs : Z; inc : Z }.

Definition Timestamp_isNull (t : Timestamp) : bool := secs t =? 0.

(** [Value] and [Document] (db/exec/document_value/), as far as the variables
    need them.  [VMissing] is [Value()]. *)
#[warnings="-register-all"]
Inductive Value : Type :=
  | VMissing
  | VBool (b : bool)
  | VInt (n : Z)
  | VString (s : string)
  | VDate (millis : Z)
  | VTimestamp (t : Timestamp)
  | VObject (fields : list (string * Value)).

Definition Document : Type := list (string * Value).

(** [Document{}] *)
Definition emptyDocument : Document := [].

(** Modelled from the spec: [RuntimeConstants] (generated from
    runtime_constants.idl) is not among the sources; the record holds the
    local time, the cluster time, an optional script scope and the map-reduce
    flag. *)
Record RuntimeConstants : Type := mkRuntimeConstants {
  getLocalNow : Z;
  getClusterTime : Timestamp;
  getJsScope : option Document;
  getIsMapReduce : bool;
}.

Definition setJsScope (s : option Document) (rc : RuntimeConstants) : RuntimeConstants :=
  mkRuntimeConstants (getLocalNow rc) (getClusterTime rc) s (getIsMapReduce rc).

Definition setIsMapReduce (b : bool) (rc : RuntimeConstants) : RuntimeConstants :=
  mkRuntimeConstants (getLocalNow rc) (getClusterTime rc) (getJsScope rc) b.

(** ** Variables::Id and Variables::IdGenerator *)

(** [using Id = int64_t;] *)
Definition Id : Type := Z.

(** Addresses of objects held through pointers. *)
Definition addr : Type := positive.

Module IdGenerator.

Record t : Type := mk { _nextId : Id }.

(** [IdGenerator() : _nextId(0) {}] *)
Definition init : t := mk 0.

(** [Variables::Id generateId() { return _nextId++; }] *)
Definition generateId (g : t) : Id * t :=
  (_nextId g, mk (wrap64 (_nextId g + 1))).

(** [n] successive calls of [generateId] on one instance, with the ids in the
    order they were returned. *)
Fixpoint generateIds (n : nat) (g : t) : list Id * t :=
  match n with
  | O => ([], g)
  | S n' =>
      let '(id, g1) := generateId g in
      let '(ids, g2) := generateIds n' g1 in
      (id :: ids, g2)
  end.

End IdGenerator.

(** ** The state of Variables *)

(** [struct ValueAndState { Value value; bool isConstant = false; }] *)
Record ValueAndState : Type := mkValueAndState {
  value : Value;
  isConstant : bool;
}.

(** The data members of [class Variables]. *)
Record Variables : Type := mkVariables {
  _idGenerator : IdGenerator.t;
  _values : gmap Id ValueAndState;
  _runtimeConstantsMap : gmap Id Value;
  _letParametersMap : gmap Id Value;
  _runtimeConstants : option RuntimeConstants;
}.

Definition set_idGenerator (g : IdGenerator.t) (v : Variables) : Variables :=
  mkVariables g (_values v) (_runtimeConstantsMap v) (_letParametersMap v) (_runtimeConstants v).

Definition set_values (vs : gmap Id ValueAndState) (v : Variables) : Variables :=
  mkVariables (_idGenerator v) vs (_runtimeConstantsMap v) (_letParametersMap v) (_runtimeConstants v).

Definition set_letParametersMap (lp : gmap Id Value) (v : Variables) : Variables :=
  mkVariables (_idGenerator v) (_values v) (_runtimeConstantsMap v) lp (_runtimeConstants v).

Definition set_runtimeConstants (rc : option RuntimeConstants) (v : Variables) : Variables :=
  mkVariables (_idGenerator v) (_values v) (_runtimeConstantsMap v) (_letParametersMap v) rc.

(** ** The state of VariablesParseState *)

(** A [Variables::IdGenerator*]: the generator embedded in the [variables]
    member of the expression context at an address
    ([expCtx->variables.useIdGenerator()]), or a generator object of its own. *)
Inductive GenPtr : Type :=
  | GenOfCtx (expCtx : addr)
  | GenAt (a : addr).

(** The data members of [class VariablesParseState]; [vps_idGenerator] is its
    [_idGenerator] ("Not owned here"). *)
Record VariablesParseState : Type := mkVariablesParseState {
  vps_idGenerator : GenPtr;
  _variables : gmap string Id;
  _lastSeen : Id;
}.

(** ** The state of ExpressionContext *)

(** A collator object: its identity (the address a
    [std::unique_ptr<CollatorInterface>] holds) and the collation it
    implements.  A [unique_ptr] is an [option]: [None] is the null pointer. *)
Record CollatorInterface : Type := mkCollator {
  collator_id : addr;
  collation : string;
}.

(** [_collator.get()]: the raw pointer. *)
Definition collator_get (c : option CollatorInterface) : option addr :=
  collator_id <$> c.

(** [DocumentComparator] and [ValueComparator] are built from a raw collator
    pointer; each keeps the pointer it was built from. *)
Record DocumentComparator : Type := mkDocumentComparator { dc_collator : option addr }.
Record ValueComparator : Type := mkValueComparator { vc_collator : option addr }.

Inductive Verbosity : Type := kQueryPlanner | kExecStats | kExecAllPlans.

Definition NamespaceString : Type := string.
Definition UUID : Type := Z.

(** [ExpressionContext::ResolvedNamespace] *)
Record ResolvedNamespace : Type := mkResolvedNamespace {
  rn_ns : NamespaceString;
  rn_pipeline : list Document;
}.

(** The data members of [class ExpressionContext] that the two source files
    touch ([timeZoneDatabase], a pointer looked up from the service context, is
    left out).  The class keeps no map-reduce member: the constructor only
    reads its [isMapReduce] argument to decide [jsHeapLimitMB]. *)
Record ExpressionContext : Type := mkExpressionContext {
  explain : option Verbosity;
  fromMongos : bool;
  needsMerge : bool;
  inMongos : bool;
  allowDiskUse : bool;
  bypassDocumentValidation : bool;
  ns : NamespaceString;
  uuid : option UUID;
  tempDir : string;
  opCtx : option addr;
  mongoProcessInterface : option addr;
  variables : Variables;
  variablesParseState : VariablesParseState;
  maxFeatureCompatibilityVersion : option Z;
  subPipelineDepth : Z;
  mayDbProfile : bool;
  jsHeapLimitMB : option Z;
  _collator : option CollatorInterface;
  _documentComparator : DocumentComparator;
  _valueComparator : ValueComparator;
  _resolvedNamespaces : gmap string ResolvedNamespace;
  _interruptCounter : Z;
}.

Definition set_variables (v : Variables) (c : ExpressionContext) : ExpressionContext :=
  let '(mkExpressionContext a1 a2 a3 a4 a5 a6 a7 a8 a9 a10 a11 _ a13 a14 a15 a16 a17
          a18 a19 a20 a21 a22) := c in
  mkExpressionContext a1 a2 a3 a4 a5 a6 a7 a8 a9 a10 a11 v a13 a14 a15 a16 a17
    a18 a19 a20 a21 a22.

Definition set_variablesParseState (p : VariablesParseState) (c : ExpressionContext)
  : ExpressionContext :=
  let '(mkExpressionContext a1 a2 a3 a4 a5 a6 a7 a8 a9 a10 a11 a12 _ a14 a15 a16 a17
          a18 a19 a20 a21 a22) := c in
  mkExpressionContext a1 a2 a3 a4 a5 a6 a7 a8 a9 a10 a11 a12 p a14 a15 a16 a17
    a18 a19 a20 a21 a22.

Definition set_jsHeapLimitMB (l : option Z) (c : ExpressionContext) : ExpressionContext :=
  let '(mkExpressionContext a1 a2 a3 a4 a5 a6 a7 a8 a9 a10 a11 a12 a13 a14 a15 a16 _
          a18 a19 a20 a21 a22) := c in
  mkExpressionContext a1 a2 a3 a4 a5 a6 a7 a8 a9 a10 a11 a12 a13 a14 a15 a16 l
    a18 a19 a20 a21 a22.

Definition set_collator (k : option CollatorInterface) (c : ExpressionContext)
  : ExpressionContext :=
  let '(mkExpressionContext a1 a2 a3 a4 a5 a6 a7 a8 a9 a10 a11 a12 a13 a14 a15 a16 a17
          _ a19 a20 a21 a22) := c in
  mkExpressionContext a1 a2 a3 a4 a5 a6 a7 a8 a9 a10 a11 a12 a13 a14 a15 a16 a17
    k a19 a20 a21 a22.

Definition set_comparators (d : DocumentComparator) (v : ValueComparator)
    (c : ExpressionContext) : ExpressionContext :=
  let '(mkExpressionContext a1 a2 a3 a4 a5 a6 a7 a8 a9 a10 a11 a12 a13 a14 a15 a16 a17
          a18 _ _ a21 a22) := c in
  mkExpressionContext a1 a2 a3 a4 a5 a6 a7 a8 a9 a10 a11 a12 a13 a14 a15 a16 a17
    a18 d v a21 a22.

Definition set_interruptCounter (n : Z) (c : ExpressionContext) : ExpressionContext :=
  let '(mkExpressionContext a1 a2 a3 a4 a5 a6 a7 a8 a9 a10 a11 a12 a13 a14 a15 a16 a17
          a18 a19 a20 a21 _) := c in
  mkExpressionContext a1 a2 a3 a4 a5 a6 a7 a8 a9 a10 a11 a12 a13 a14 a15 a16 a17
    a18 a19 a20 a21 n.

(** The four plain members [copyWith] assigns after constructing the copy:
    [inMongos], [maxFeatureCompatibilityVersion], [subPipelineDepth] and
    [tempDir]. *)
Definition set_copied_members (im : bool) (fcv : option Z) (depth : Z) (dir : string)
    (c : ExpressionContext) : ExpressionContext :=
  let '(mkExpressionContext a1 a2 a3 _ a5 a6 a7 a8 _ a10 a11 a12 a13 _ _ a16 a17
          a18 a19 a20 a21 a22) := c in
  mkExpressionContext a1 a2 a3 im a5 a6 a7 a8 dir a10 a11 a12 a13 fcv depth a16 a17
    a18 a19 a20 a21 a22.

(** [AggregationRequest], as far as the constructor reads it. *)
Record AggregationRequest : Type := mkAggregationRequest {
  getExplain : option Verbosity;
  isFromMongos : bool;
  req_needsMerge : bool;
  shouldAllowDiskUse : bool;
  shouldBypassDocumentValidation : bool;
  getIsMapReduceCommand : bool;
  getNamespaceString : NamespaceString;
  req_getRuntimeConstants : option RuntimeConstants;
}.

(** ** The operation context and the world *)

(** [OperationContext], of which the expression context only uses
    [checkForInterrupt()]: whether an interruption (a kill or an expired
    deadline) is pending, and how often the check has been invoked so far. *)
Record OperationContext : Type := mkOperationContext {
  interruptPending : bool;
  interruptChecks : Z;
}.

(** The objects reached through pointers: reference-counted expression
    contexts, free-standing id generators, operation contexts, and the next
    unused identity for objects created by [clone()] and [make_shared]. *)
Record World : Type := mkWorld {
  w_ctxs : gmap addr ExpressionContext;
  w_gens : gmap addr IdGenerator.t;
  w_opCtxs : gmap addr OperationContext;
  w_nextObject : addr;
}.

Definition set_ctxs (m : gmap addr ExpressionContext) (w : World) : World :=
  mkWorld m (w_gens w) (w_opCtxs w) (w_nextObject w).

Definition set_gens (m : gmap addr IdGenerator.t) (w : World) : World :=
  mkWorld (w_ctxs w) m (w_opCtxs w) (w_nextObject w).

Definition set_opCtxs (m : gmap addr OperationContext) (w : World) : World :=
  mkWorld (w_ctxs w) (w_gens w) m (w_nextObject w).

Definition emptyWorld : World := mkWorld ∅ ∅ ∅ 1%positive.

(** Reading and writing the expression context at an address; using a context
    that does not exist has no defined behaviour and is reported as a failed
    invariant. *)
Definition ctx_get (a : addr) : M World ExpressionContext := fun w =>
  match w_ctxs w !! a with
  | Some c => (Ok c, w)
  | None => (Err InvariantFailure, w)
  end.

Definition ctx_put (a : addr) (c : ExpressionContext) : M World unit := fun w =>
  (Ok tt, set_ctxs (<[a := c]> (w_ctxs w)) w).

(** An assignment to members of the context at an address. *)
Definition ctx_modify (a : addr) (f : ExpressionContext -> ExpressionContext) : M World unit :=
  c ← ctx_get a;
  ctx_put a (f c).

(** Dereferencing a generator pointer. *)
Definition gen_load (p : GenPtr) (w : World) : option IdGenerator.t :=
  match p with
  | GenOfCtx a => (fun c => _idGenerator (variables c)) <$> w_ctxs w !! a
  | GenAt a => w_gens w !! a
  end.

Definition gen_store (p : GenPtr) (g : IdGenerator.t) (w : World) : World :=
  match p with
  | GenOfCtx a =>
      set_ctxs (alter (fun c => set_variables (set_idGenerator g (variables c)) c) a (w_ctxs w)) w
  | GenAt a => set_gens (<[a := g]> (w_gens w)) w
  end.

(** ** What the two source files take from elsewhere *)

(** Constants, tables and collaborators that the code uses and that are
    declared in files outside the two sources. *)
Class Externals : Type := {
  (** [ExpressionContext::kInterruptCheckPeriod] (expression_context.h) *)
  kInterruptCheckPeriod : Z;
  (** the server parameter [internalQueryJavaScriptHeapSizeLimitMB] *)
  internalQueryJavaScriptHeapSizeLimitMB : Z;
  (** [Variables::generateRuntimeConstants(opCtx)]: reads the clocks *)
  generateRuntimeConstants : option addr -> RuntimeConstants;
  (** [Variables::kSystemVarValidators]: does the value suit the builtin id? *)
  kSystemVarValidators : Id -> Value -> bool;
  (** [Variables::validateNameForUserWrite]: is the name legal? *)
  validateNameForUserWrite : string -> bool;
  (** parsing and evaluating the raw value of a let parameter against the
      expression context at an address *)
  evaluateLetParameter : addr -> World -> Value -> result Value;
}.

(** ** class Variables *)

Module Variables.

(** [static bool isUserDefinedVariable(Variables::Id id) { return id >= 0; }] *)
Definition isUserDefinedVariable (id : Id) : bool := 0 <=? id.

(** Ids for builtin variables. *)
Definition kRootId : Id := -1.
Definition kRemoveId : Id := -2.
Definition kNowId : Id := -3.
Definition kClusterTimeId : Id := -4.
Definition kJsScopeId : Id := -5.
Definition kIsMapReduceId : Id := -6.

(** [Variables() = default;] *)
Definition init : Variables := mkVariables IdGenerator.init ∅ ∅ ∅ None.

(** [hasConstantValue]: is [id] in [_values] with [isConstant] set? *)
Definition hasConstantValue (id : Id) (vars : Variables) : bool :=
  match _values vars !! id with
  | Some vs => isConstant vs
  | None => false
  end.

(** [hasValue]: [true] for a negative id, otherwise whether [id] is a key of
    [_letParametersMap]. *)
Definition hasValue (id : Id) (vars : Variables) : bool :=
  if id <? 0 then true
  else match _letParametersMap vars !! id with
       | Some _ => true
       | None => false
       end.

(** Modelled from the spec: the body of the private
    [setValue(id, value, isConstant)] (variables.cpp) is not among the sources.
    On a builtin (negative) id the setters run that id's validator first and
    fail with the type-mismatch error if it rejects the value; a write to an
    id that holds a constant binding fails with the constant-violation error;
    a failed write leaves the store as it was; otherwise the binding is
    stored with its constant flag.  ROOT and REMOVE are not re-checked here
    (the caller's responsibility). *)
Definition setValue3 `{Externals} (id : Id) (v : Value) (isConst : bool) : M Variables unit :=
  vars ← get;
  if negb (isUserDefinedVariable id) && negb (kSystemVarValidators id v)
  then throw SystemVariableTypeMismatch
  else if hasConstantValue id vars then throw ConstantViolation
  else put (set_values (<[id := mkValueAndState v isConst]> (_values vars)) vars).

(** [void setValue(Variables::Id id, const Value& value)] *)
Definition setValue `{Externals} (id : Id) (v : Value) : M Variables unit :=
  setValue3 id v false.

(** [void setConstantValue(Variables::Id id, const Value& value)] *)
Definition setConstantValue `{Externals} (id : Id) (v : Value) : M Variables unit :=
  setValue3 id v true.

(** Modelled from the spec: the body of [getUserDefinedValue]
    (variables.cpp) is not among the sources.  Calling it with a system id is a programming error; a user id yields its stored
    value, or the missing value when it is unbound. *)
Definition getUserDefinedValue (id : Id) (vars : Variables) : result Value :=
  if isUserDefinedVariable id then
    match _values vars !! id with
    | Some vs => Ok (value vs)
    | None => Ok VMissing
    end
  else Err InvariantFailure.

(** Modelled from the spec: the body of the two-argument [getValue(id, root)]
    (variables.cpp) is not among the sources; its declaration in the header
    says: "If the 'id' provided represents the special ROOT variable, then we
    return 'root' in Value form."  ROOT yields
    the root document as a value; any other id yields its stored binding;
    an unbound user id yields the missing value; REMOVE, which never holds a
    value, is the missing value; reading another builtin id before it is
    bound is a programming error. *)
Definition getValue (id : Id) (root : Document) (vars : Variables) : result Value :=
  if id =? kRootId then Ok (VObject root)
  else match _values vars !! id with
       | Some vs => Ok (value vs)
       | None =>
           if isUserDefinedVariable id then Ok VMissing
           else if id =? kRemoveId then Ok VMissing
           else Err InvariantFailure
       end.

(** The single-argument overload:
    [auto getValue(Variables::Id id) const { return getValue(id, Document{}); }] *)
Definition getValue1 (id : Id) (vars : Variables) : result Value :=
  getValue id emptyDocument vars.

(** Modelled from the spec: the body of [getDocument] (variables.cpp) is not
    among the sources; it is like [getValue], with a result that is not a
    document replaced by the empty document. *)
Definition getDocument (id : Id) (root : Document) (vars : Variables) : result Document :=
  match getValue id root vars with
  | Ok (VObject d) => Ok d
  | Ok _ => Ok emptyDocument
  | Err e => Err e
  end.

(** [IdGenerator* useIdGenerator() { return &_idGenerator; }], for the
    [variables] member of the expression context at [expCtx]. *)
Definition useIdGenerator (expCtx : addr) : GenPtr := GenOfCtx expCtx.

(** Modelled from the spec: the body of [setRuntimeConstants] (variables.cpp)
    is not among the sources.  Setting the constants when they are already set
    is a programming error. *)
Definition setRuntimeConstants (constants : RuntimeConstants) : M Variables unit :=
  vars ← get;
  match _runtimeConstants vars with
  | Some _ => throw InvariantFailure
  | None => put (set_runtimeConstants (Some constants) vars)
  end.

(** Modelled from the spec: the body of [getRuntimeConstants] (variables.cpp)
    is not among the sources.  Reading the constants before they are set is a
    programming error. *)
Definition getRuntimeConstants (vars : Variables) : result RuntimeConstants :=
  match _runtimeConstants vars with
  | Some rc => Ok rc
  | None => Err InvariantFailure
  end.

(** Modelled from the spec: the body of [setDefaultRuntimeConstants]
    (variables.cpp) is not among the sources; it sets the constants
    synthesized from the clocks. *)
Definition setDefaultRuntimeConstants `{Externals} (opCtx : option addr) : M Variables unit :=
  setRuntimeConstants (generateRuntimeConstants opCtx).

End Variables.

(** ** class VariablesParseState *)

Module VariablesParseState.

(** [explicit VariablesParseState(Variables::IdGenerator* variableIdGenerator)];
    [_lastSeen] starts at -1. *)
Definition ctor (variableIdGenerator : GenPtr) : VariablesParseState :=
  mkVariablesParseState variableIdGenerator ∅ (-1).

(** [bool hasDefinedVariables() const { return !_variables.empty(); }] *)
Definition hasDefinedVariables (vps : VariablesParseState) : bool :=
  negb (bool_decide (_variables vps = ∅)).

(** [copyWith]: a copy of [*this] (the name map is copied, not shared) whose
    [_idGenerator] is replaced by the given pointer. *)
Definition copyWith (idGenerator : GenPtr) (this : VariablesParseState)
  : VariablesParseState :=
  mkVariablesParseState idGenerator (_variables this) (_lastSeen this).

(** Modelled from the spec: the body of [getVariable] (variables.cpp) is not
    among the sources.  The lookup is
    local to this scope's map; ROOT and CURRENT are always implicitly defined
    (the header's comment on [defineVariable]), CURRENT being ROOT until the
    scope defines it; any other absent name is an undefined variable. *)
Definition getVariable (name : string) (this : VariablesParseState) : result Id :=
  match _variables this !! name with
  | Some id => Ok id
  | None =>
      if bool_decide (name = "CURRENT") || bool_decide (name = "ROOT")
      then Ok Variables.kRootId
      else Err (UndefinedVariable name)
  end.

(** Modelled from the spec: the body of [getDefinedVariableIDs]
    (variables.cpp) is not among the sources; it returns all ids currently
    bound in this scope. *)
Definition getDefinedVariableIDs (this : VariablesParseState) : gset Id :=
  map_img (_variables this).

(** Modelled from the spec: the body of [defineVariable] (variables.cpp) is
    not among the sources.  It obtains a
    fresh id from the generator the scope points to and records the name with
    that id in this scope's own map, replacing an earlier entry of the name.
    The result is the id and the scope after the call; the world after the
    call holds the advanced generator. *)
Definition defineVariable (name : string) (this : VariablesParseState)
  : M World (Id * VariablesParseState) := fun w =>
  match gen_load (vps_idGenerator this) w with
  | None => (Err InvariantFailure, w)
  | Some g =>
      let '(id, g') := IdGenerator.generateId g in
      (Ok (id, mkVariablesParseState (vps_idGenerator this)
                 (<[name := id]> (_variables this)) id),
       gen_store (vps_idGenerator this) g' w)
  end.

End VariablesParseState.

(** ** class OperationContext *)

(** Modelled from the spec: [opCtx->checkForInterrupt()] belongs to the
    operation context, an external collaborator ("check now, abort if
    canceled"); every invocation is counted on the operation context. *)
Definition OperationContext_checkForInterrupt (opCtx : addr) : M World unit := fun w =>
  match w_opCtxs w !! opCtx with
  | None => (Err InvariantFailure, w)
  | Some oc =>
      let oc' := mkOperationContext (interruptPending oc) (interruptChecks oc + 1) in
      let w' := set_opCtxs (<[opCtx := oc']> (w_opCtxs w)) w in
      if interruptPending oc then (Err Interrupted, w') else (Ok tt, w')
  end.

(** [CollatorInterface::clone()]: a new collator object with the same
    collation. *)
Definition CollatorInterface_clone (c : CollatorInterface) : M World CollatorInterface :=
  fun w =>
    (Ok (mkCollator (w_nextObject w) (collation c)),
     mkWorld (w_ctxs w) (w_gens w) (w_opCtxs w) (Pos.succ (w_nextObject w))).

(** ** class ExpressionContext *)

Module ExpressionContext.

(** A method of the [variables] member of the context at [this]. *)
Definition on_variables {A} (this : addr) (m : M Variables A) : M World A :=
  c ← ctx_get this;
  let '(r, vars) := m (variables c) in
  _ ← ctx_put this (set_variables vars c);
  match r with
  | Ok a => mret a
  | Err e => throw e
  end.

(** Modelled from the spec: [setCollator] (expression_context.h) is not among
    the sources; it installs the collator and regenerates the derived document
    and value comparators from it. *)
Definition setCollator (this : addr) (collator : option CollatorInterface) : M World unit :=
  c ← ctx_get this;
  ctx_put this
    (set_comparators (mkDocumentComparator (collator_get collator))
       (mkValueComparator (collator_get collator))
       (set_collator collator c)).

(** [expCtx->variablesParseState.defineVariable(name)]: a definition in the
    parse state of the context at [expCtx]. *)
Definition defineVariable (expCtx : addr) (name : string) : M World Id :=
  c ← ctx_get expCtx;
  '(id, vps) ← VariablesParseState.defineVariable name (variablesParseState c);
  _ ← ctx_modify expCtx (set_variablesParseState vps);
  mret id.

(** Modelled from the spec: the body of
    [Variables::seedVariablesWithLetParameters(expCtx, letParameters)]
    (variables.cpp), which the constructor calls on [expCtx]'s own
    [variables], is not among the sources.  For each
    parameter in turn: the name is validated for a user write, defined in the
    context's parse state, the raw value is evaluated against the context,
    and the value is stored as a constant binding and recorded among the let
    parameters. *)
Fixpoint seedVariablesWithLetParameters `{Externals} (expCtx : addr)
    (letParameters : Document) : M World unit :=
  match letParameters with
  | [] => mret tt
  | (name, raw) :: rest =>
      if negb (validateNameForUserWrite name) then throw (InvalidName name)
      else
        id ← defineVariable expCtx name;
        w ← get;
        match evaluateLetParameter expCtx w raw with
        | Err e => throw e
        | Ok v =>
            _ ← on_variables expCtx
                  (_ ← Variables.setConstantValue id v;
                   vars ← get;
                   put (set_letParametersMap (<[id := v]> (_letParametersMap vars)) vars));
            seedVariablesWithLetParameters expCtx rest
        end
  end.

(** The first statement of the constructor's body (lines 112-122), run on
    the [variables] member: which runtime constants the context gets. *)
Definition resolveRuntimeConstants `{Externals} (opCtx : option addr)
    (runtimeConstants : option RuntimeConstants) : M Variables unit :=
  match runtimeConstants with
  | Some rc =>
      if Timestamp_isNull (getClusterTime rc) then
        let genConsts := generateRuntimeConstants opCtx in
        let genConsts := setJsScope (getJsScope rc) genConsts in
        let genConsts := setIsMapReduce (getIsMapReduce rc) genConsts in
        Variables.setRuntimeConstants genConsts
      else Variables.setRuntimeConstants rc
  | None => Variables.setDefaultRuntimeConstants opCtx
  end.

(** The constructor taking the execution flags (lines 77-137), building the
    object at [this].  Members the initializer list does not name keep the
    defaults of expression_context.h, which is not among the sources:
    [inMongos] false, [tempDir] empty, no feature-compatibility ceiling,
    depth 0, no heap limit and, from the specification, a countdown that
    starts at the reset period.  A constructor that throws leaves no object
    behind. *)
Definition ctor `{Externals} (this : addr)
    (opCtx : option addr) (explain : option Verbosity)
    (fromMongos needsMerge allowDiskUse bypassDocumentValidation isMapReduce : bool)
    (ns : NamespaceString) (runtimeConstants : option RuntimeConstants)
    (collator : option CollatorInterface) (mongoProcessInterface : option addr)
    (resolvedNamespaces : gmap string ResolvedNamespace) (collUUID : option UUID)
    (mayDbProfile : bool) (letParameters : option Document) : M World unit := fun w0 =>
  let c0 :=
    mkExpressionContext explain fromMongos needsMerge false allowDiskUse
      bypassDocumentValidation ns collUUID "" opCtx mongoProcessInterface
      Variables.init (VariablesParseState.ctor (Variables.useIdGenerator this))
      None 0 mayDbProfile None
      collator (mkDocumentComparator (collator_get collator))
      (mkValueComparator (collator_get collator))
      resolvedNamespaces kInterruptCheckPeriod in
  let body : M World unit :=
    _ ← ctx_put this c0;
    _ ← on_variables this (resolveRuntimeConstants opCtx runtimeConstants);
    _ ← (if negb isMapReduce then
           ctx_modify this (set_jsHeapLimitMB (Some internalQueryJavaScriptHeapSizeLimitMB))
         else mret tt);
    match letParameters with
    | Some lp => seedVariablesWithLetParameters this lp
    | None => mret tt
    end in
  match body w0 with
  | (Ok _, w1) => (Ok tt, w1)
  | (Err e, _) => (Err e, w0)
  end.

(** The constructor taking an [AggregationRequest] (lines 49-75): it
    delegates to [ctor] without let parameters and then clears the heap limit
    of a mapReduce command. *)
Definition ctorFromRequest `{Externals} (this : addr) (opCtx : option addr)
    (request : AggregationRequest) (collator : option CollatorInterface)
    (processInterface : option addr)
    (resolvedNamespaces : gmap string ResolvedNamespace) (collUUID : option UUID)
    (mayDbProfile : bool) : M World unit :=
  _ ← ctor this opCtx (getExplain request) (isFromMongos request) (req_needsMerge request)
        (shouldAllowDiskUse request) (shouldBypassDocumentValidation request)
        (getIsMapReduceCommand request) (getNamespaceString request)
        (req_getRuntimeConstants request) collator processInterface resolvedNamespaces
        collUUID mayDbProfile None;
  if getIsMapReduceCommand request then ctx_modify this (set_jsHeapLimitMB None)
  else mret tt.

(** The constructor taking only a collator and a namespace (lines 139-160):
    it creates a stub process interface, takes explicit runtime constants as
    they are and synthesizes none. *)
Definition ctorWithStub `{Externals} (this : addr) (opCtx : option addr)
    (collator : option CollatorInterface) (nss : NamespaceString)
    (runtimeConstants : option RuntimeConstants) (mayDbProfile : bool)
  : M World unit := fun w0 =>
  let stub := w_nextObject w0 in
  let w0' := mkWorld (w_ctxs w0) (w_gens w0) (w_opCtxs w0) (Pos.succ stub) in
  let c0 :=
    mkExpressionContext None false false false false false nss None "" opCtx (Some stub)
      Variables.init (VariablesParseState.ctor (Variables.useIdGenerator this))
      None 0 mayDbProfile None
      collator (mkDocumentComparator (collator_get collator))
      (mkValueComparator (collator_get collator))
      ∅ kInterruptCheckPeriod in
  let body : M World unit :=
    _ ← ctx_put this c0;
    _ ← match runtimeConstants with
        | Some rc => on_variables this (Variables.setRuntimeConstants rc)
        | None => mret tt
        end;
    ctx_modify this (set_jsHeapLimitMB (Some internalQueryJavaScriptHeapSizeLimitMB)) in
  match body w0' with
  | (Ok _, w1) => (Ok tt, w1)
  | (Err e, _) => (Err e, w0)
  end.

(** [checkForInterrupt] (lines 162-169):
    [if (--_interruptCounter == 0) { invariant(opCtx);
       _interruptCounter = kInterruptCheckPeriod; opCtx->checkForInterrupt(); }] *)
Definition checkForInterrupt `{Externals} (this : addr) : M World unit :=
  c ← ctx_get this;
  let counter := wrap32 (_interruptCounter c - 1) in
  _ ← ctx_put this (set_interruptCounter counter c);
  if counter =? 0 then
    match opCtx c with
    | None => throw InvariantFailure
    | Some oc =>
        _ ← ctx_put this (set_interruptCounter kInterruptCheckPeriod c);
        OperationContext_checkForInterrupt oc
    end
  else mret tt.

(** The nested class [ExpressionContext::CollatorStash]. *)
Module CollatorStash.

Record t : Type := mk {
  _expCtx : addr;
  _originalCollator : option CollatorInterface;
}.

(** The constructor (lines 171-176): [_originalCollator] is moved out of
    the context's [_collator], which is left null, and then the new
    collator is installed with [setCollator]. *)
Definition ctor (expCtx : addr) (newCollator : option CollatorInterface) : M World t :=
  c ← ctx_get expCtx;
  let original := _collator c in
  _ ← ctx_put expCtx (set_collator None c);
  _ ← setCollator expCtx newCollator;
  mret (mk expCtx original).

(** The destructor (lines 178-180):
    [_expCtx->setCollator(std::move(_originalCollator));] *)
Definition dtor (this : t) : M World unit :=
  setCollator (_expCtx this) (_originalCollator this).

End CollatorStash.

(** [temporarilyChangeCollator] (lines 182-186) *)
Definition temporarilyChangeCollator (this : addr) (newCollator : option CollatorInterface)
  : M World CollatorStash.t :=
  CollatorStash.ctor this newCollator.

(** A block that owns the handle,
    [{ auto stash = expCtx->temporarilyChangeCollator(c); body }]:
    the destructor of the stash runs when the block is left, whether [body]
    returns or throws.  A failed invariant ends the process instead: nothing
    is unwound. *)
Definition withTemporaryCollator {A} (this : addr)
    (newCollator : option CollatorInterface) (body : M World A) : M World A := fun w =>
  match temporarilyChangeCollator this newCollator w with
  | (Err e, w1) => (Err e, w1)
  | (Ok stash, w1) =>
      match body w1 with
      | (Err InvariantFailure, w2) => (Err InvariantFailure, w2)
      | (r, w2) =>
          match CollatorStash.dtor stash w2 with
          | (Ok _, w3) => (r, w3)
          | (Err e, w3) => (Err e, w3)
          end
      end
  end.

(** [copyWith] (lines 188-225).  [make_intrusive] builds the copy at an
    address no context occupies. *)
Definition copyWith `{Externals} (this : addr) (ns : NamespaceString)
    (uuid : option UUID) (updatedCollator : option (option CollatorInterface))
  : M World addr :=
  p ← ctx_get this;
  collator ← match updatedCollator with
              | Some c => mret c
              | None =>
                  match _collator p with
                  | Some c => c' ← CollatorInterface_clone c; mret (Some c')
                  | None => mret None
                  end
              end;
  w ← get;
  let expCtx := fresh (dom (w_ctxs w)) in
  _ ← ctor expCtx (opCtx p) (explain p) (fromMongos p) (needsMerge p) (allowDiskUse p)
        (bypassDocumentValidation p) false ns None collator (mongoProcessInterface p)
        (_resolvedNamespaces p) uuid (mayDbProfile p) None;
  c ← ctx_get expCtx;
  let c := set_copied_members (inMongos p) (maxFeatureCompatibilityVersion p)
             (subPipelineDepth p) (tempDir p) c in
  let c := set_jsHeapLimitMB (jsHeapLimitMB p) c in
  let c := set_variables (variables p) c in
  let c := set_variablesParseState
             (VariablesParseState.copyWith (Variables.useIdGenerator expCtx)
                (variablesParseState p)) c in
  _ ← ctx_put expCtx c;
  mret expCtx.

End ExpressionContext.

(** ** Sequences of calls, and example inputs *)

(** A sequence of [setValue] / [setConstantValue] calls on one [Variables]
    (each entry: id, value, whether the call is [setConstantValue]); a call
    that fails is caught by the caller and the sequence goes on. *)
Definition applyWrites `{Externals} (ws : list (Id * Value * bool)) (vars : Variables)
  : Variables :=
  foldl (fun vs '(id, v, isConst) => (Variables.setValue3 id v isConst vs).2) vars ws.

(** Definitions made, in any order, in a scope and in a scope forked from
    it. *)
Inductive ScopeOp : Type :=
  | DefineInParent (name : string)
  | DefineInChild (name : string).

(** The parent scope, the child scope, and the world holding the generators. *)
Record Scopes : Type := mkScopes {
  parent : VariablesParseState;
  child : VariablesParseState;
  world : World;
}.

Definition scope_step (st : Scopes) (op : ScopeOp) : Scopes :=
  match op with
  | DefineInParent name =>
      match VariablesParseState.defineVariable name (parent st) (world st) with
      | (Ok (_, s'), w') => mkScopes s' (child st) w'
      | (Err _, w') => mkScopes (parent st) (child st) w'
      end
  | DefineInChild name =>
      match VariablesParseState.defineVariable name (child st) (world st) with
      | (Ok (_, c'), w') => mkScopes (parent st) c' w'
      | (Err _, w') => mkScopes (parent st) (child st) w'
      end
  end.

Definition scope_run (ops : list ScopeOp) (st : Scopes) : Scopes :=
  foldl scope_step st ops.

(** The names a sequence defines in the parent, and in the child. *)
Definition parentNames (ops : list ScopeOp) : list string :=
  omap (fun op => match op with DefineInParent n => Some n | _ => None end) ops.

Definition childNames (ops : list ScopeOp) : list string :=
  omap (fun op => match op with DefineInChild n => Some n | _ => None end) ops.

(** The collator [copyWith] gives the copy, and the world after it was
    obtained: the collator handed in, or a clone of the parent's, or none. *)
Definition copy_collator (p : ExpressionContext)
    (updatedCollator : option (option CollatorInterface)) (w : World)
  : option CollatorInterface * World :=
  match updatedCollator with
  | Some k => (k, w)
  | None =>
      match _collator p with
      | Some k =>
          (Some (mkCollator (w_nextObject w) (collation k)),
           mkWorld (w_ctxs w) (w_gens w) (w_opCtxs w) (Pos.succ (w_nextObject w)))
      | None => (None, w)
      end
  end.

(** A sequence of definitions in the parse state of one expression context. *)
Fixpoint defineAll (expCtx : addr) (names : list string) : M World unit :=
  match names with
  | [] => mret tt
  | name :: rest => _ ← ExpressionContext.defineVariable expCtx name; defineAll expCtx rest
  end.

(** The parse state of the context at [a] draws its ids from that context's
    own generator, as every constructor and [copyWith] arrange. *)
Definition own_generator (a : addr) (w : World) : Prop :=
  exists c, w_ctxs w !! a = Some c /\
            vps_idGenerator (variablesParseState c) = GenOfCtx a.

(** The runtime constants of the context at an address, if that context
    exists. *)
Definition constants_at (a : addr) (w : World) : option (option RuntimeConstants) :=
  (fun c => _runtimeConstants (variables c)) <$> w_ctxs w !! a.

(** A method that leaves the runtime constants of the context at [a] as they
    are, whether it returns or throws. *)
Definition keeps_constants {A} (a : addr) (m : M World A) : Prop :=
  forall w, is_Some (w_ctxs w !! a) -> constants_at a (m w).2 = constants_at a w.

(** The state of the context at [this] and of its operation context [oc]
    after [k] calls of [checkForInterrupt] that started from a freshly reset
    countdown with [n0] checks counted so far. *)
Definition after_calls `{Externals} (this oc : addr) (n0 : Z) (k : Z) (w : World) : Prop :=
  (exists c, w_ctxs w !! this = Some c /\ opCtx c = Some oc /\
             _interruptCounter c = kInterruptCheckPeriod - k mod kInterruptCheckPeriod) /\
  w_opCtxs w !! oc = Some (mkOperationContext false (n0 + k / kInterruptCheckPeriod)).

(** One choice of the external parts, used for concrete evaluations: a period
    of 128 calls, a heap limit of 100 MB, a clock that reads local time 1000
    and cluster time (7, 1), validators that ask for a date for NOW and a
    timestamp for CLUSTER_TIME, and let parameters that are constants. *)
Definition exampleExternals : Externals := {|
  kInterruptCheckPeriod := 128;
  internalQueryJavaScriptHeapSizeLimitMB := 100;
  generateRuntimeConstants := fun _ => mkRuntimeConstants 1000 (mkTimestamp 7 1) None false;
  kSystemVarValidators := fun id v =>
    if id =? Variables.kNowId then
      match v with VDate _ => true | _ => false end
    else if id =? Variables.kClusterTimeId then
      match v with VTimestamp _ => true | _ => false end
    else true;
  validateNameForUserWrite := fun _ => true;
  evaluateLetParameter := fun _ _ raw => Ok raw;
|}.

(** Example runtime constants supplied by a caller: a mapReduce command with a
    script scope and a cluster time of its own. *)
Definition exampleConstants : RuntimeConstants :=
  mkRuntimeConstants 5 (mkTimestamp 3 0) (Some [("k", VInt 1)]) true.

(** An example world: one operation context, at address 1, with no
    interruption pending, and one expression context, at address 1, built by
    the constructor for a mapReduce command with the example constants and a
    collator of identity 10. *)
Definition exampleWorld : World :=
  (ExpressionContext.ctor (H := exampleExternals) 1%positive (Some 1%positive) None
     false false true false true "db.coll" (Some exampleConstants)
     (Some (mkCollator 10%positive "fr")) None ∅ None false None
     (mkWorld ∅ ∅ {[ 1%positive := mkOperationContext false 0 ]} 20%positive)).2.

(** The expression context of the example world. *)
Definition exampleContext : ExpressionContext :=
  mkExpressionContext None false false false true false "db.coll" None ""
    (Some 1%positive) None
    (set_runtimeConstants (Some exampleConstants) Variables.init)
    (VariablesParseState.ctor (GenOfCtx 1%positive)) None 0 false None
    (Some (mkCollator 10%positive "fr"))
    (mkDocumentComparator (Some 10%positive)) (mkValueComparator (Some 10%positive))
    ∅ 128.

(** ** More of the two files *)

(** [Variables::getBuiltinVariableName] (variables.h, lines 211-218): the
    first entry of [kBuiltinVarNameToId], in the map's iteration order, whose
    id is the given one; the empty string when there is none.  The table is
    defined in variables.cpp and is an argument here, as the list of its
    entries in iteration order. *)
Fixpoint getBuiltinVariableName (kBuiltinVarNameToId : list (string * Id)) (variable : Id)
  : string :=
  match kBuiltinVarNameToId with
  | [] => EmptyString
  | (name, id) :: rest =>
      if variable =? id then name else getBuiltinVariableName rest variable
  end.

(** The runtime constants that lines 112-122 resolve. *)
Definition resolved_constants `{Externals} (opCtx : option addr)
    (runtimeConstants : option RuntimeConstants) : RuntimeConstants :=
  match runtimeConstants with
  | Some rc =>
      if Timestamp_isNull (getClusterTime rc) then
        mkRuntimeConstants (getLocalNow (generateRuntimeConstants opCtx))
          (getClusterTime (generateRuntimeConstants opCtx))
          (getJsScope rc) (getIsMapReduce rc)
      else rc
  | None => generateRuntimeConstants opCtx
  end.

(** A context is well formed at its address when its two comparators are the
    ones built from its collator and its parse state draws ids from its own
    generator: what every constructor's initializer list arranges. *)
Definition well_formed (a : addr) (c : ExpressionContext) : Prop :=
  _documentComparator c = mkDocumentComparator (collator_get (_collator c)) /\
  _valueComparator c = mkValueComparator (collator_get (_collator c)) /\
  vps_idGenerator (variablesParseState c) = GenOfCtx a.

Definition all_well_formed (w : World) : Prop :=
  forall a c, w_ctxs w !! a = Some c -> well_formed a c.

(** Calls on the expression contexts of a world, by any callers in any
    order; the result of a call is dropped and a call that fails leaves the
    state it reached. *)
Inductive CtxOp : Type :=
  | OpCheckForInterrupt (this : addr)
  | OpSetCollator (this : addr) (collator : option CollatorInterface)
  | OpTemporarilyChangeCollator (this : addr) (newCollator : option CollatorInterface)
  | OpReleaseStash (stash : ExpressionContext.CollatorStash.t)
  | OpCopyWith (this : addr) (ns : NamespaceString) (uuid : option UUID)
      (updatedCollator : option (option CollatorInterface))
  | OpConstruct (opCtx : option addr) (request : AggregationRequest)
      (collator : option CollatorInterface) (processInterface : option addr)
      (resolvedNamespaces : gmap string ResolvedNamespace) (collUUID : option UUID)
      (mayDbProfile : bool)
  | OpConstructWithStub (opCtx : option addr) (collator : option CollatorInterface)
      (nss : NamespaceString) (runtimeConstants : option RuntimeConstants)
      (mayDbProfile : bool).

Definition run_op `{Externals} (w : World) (op : CtxOp) : World :=
  match op with
  | OpCheckForInterrupt this => (ExpressionContext.checkForInterrupt this w).2
  | OpSetCollator this k => (ExpressionContext.setCollator this k w).2
  | OpTemporarilyChangeCollator this k =>
      (ExpressionContext.temporarilyChangeCollator this k w).2
  | OpReleaseStash stash => (ExpressionContext.CollatorStash.dtor stash w).2
  | OpCopyWith this ns uuid uc => (ExpressionContext.copyWith this ns uuid uc w).2
  | OpConstruct opCtx request collator processInterface resolvedNamespaces collUUID
      mayDbProfile =>
      (ExpressionContext.ctorFromRequest (fresh (dom (w_ctxs w))) opCtx request collator
         processInterface resolvedNamespaces collUUID mayDbProfile w).2
  | OpConstructWithStub opCtx collator nss runtimeConstants mayDbProfile =>
      (ExpressionContext.ctorWithStub (fresh (dom (w_ctxs w))) opCtx collator nss
         runtimeConstants mayDbProfile w).2
  end.

Definition run_ops `{Externals} (ops : list CtxOp) (w : World) : World :=
  foldl run_op w ops.

(** A second example world: one expression context, at address 1, built by
    the constructor that takes only a collator and a namespace, without an
    operation context. *)
Definition exampleStubWorld : World :=
  (ExpressionContext.ctorWithStub (H := exampleExternals) 1%positive None None "db.coll"
     None false emptyWorld).2.

Definition exampleStubContext : ExpressionContext :=
  mkExpressionContext None false false false false false "db.coll" None "" None
    (Some 1%positive) Variables.init (VariablesParseState.ctor (GenOfCtx 1%positive))
    None 0 false (Some 100) None (mkDocumentComparator None) (mkValueComparator None)
    ∅ 128.

(** The example world with an interruption pending on its operation
    context. *)
Definition examplePendingWorld : World :=
  set_opCtxs {[ 1%positive := mkOperationContext true 0 ]} exampleWorld.

(** The names of the builtin variables, as an example of the table. *)
Definition exampleBuiltinNames : list (string * Id) :=
  [("ROOT", Variables.kRootId); ("REMOVE", Variables.kRemoveId);
   ("NOW", Variables.kNowId); ("CLUSTER_TIME", Variables.kClusterTimeId);
   ("JS_SCOPE", Variables.kJsScopeId); ("IS_MR", Variables.kIsMapReduceId)].

(** * Part II: the properties *)

(** ** Arithmetic *)

Lemma wrap64_small z : - 2 ^ 63 <= z < 2 ^ 63 -> wrap64 z = z.
Proof.
  intros Hz. unfold wrap64.
  rewrite Z.mod_small; lia.
Qed.

Lemma wrap32_small z : - 2 ^ 31 <= z < 2 ^ 31 -> wrap32 z = z.
Proof.
  intros Hz. unfold wrap32.
  rewrite Z.mod_small; lia.
Qed.

(** ** The id generator *)

Lemma generateIds_length n g : length (IdGenerator.generateIds n g).1 = n.
Proof.
  revert g. induction n as [|n IH]; intros g; simpl; [done|].
  specialize (IH (IdGenerator.mk (wrap64 (IdGenerator._nextId g + 1)))).
  destruct (IdGenerator.generateIds n _) as [ids g2]. simpl in *. by rewrite IH.
Qed.

(** As long as the counter stays in range, the [i]-th call returns the
    starting counter plus [i]. *)
Lemma generateIds_lookup n g i :
  0 <= IdGenerator._nextId g ->
  IdGenerator._nextId g + Z.of_nat n <= 2 ^ 63 ->
  (i < n)%nat ->
  (IdGenerator.generateIds n g).1 !! i = Some (IdGenerator._nextId g + Z.of_nat i).
Proof.
  revert g i. induction n as [|n IH]; intros g i Hlo Hhi Hi; [lia|].
  simpl.
  pose proof (IH (IdGenerator.mk (wrap64 (IdGenerator._nextId g + 1)))) as IH'.
  destruct (IdGenerator.generateIds n _) as [ids g2]. simpl in *.
  destruct i as [|i]; simpl.
  - f_equal. lia.
  - rewrite wrap64_small in IH' by lia.
    rewrite IH' by lia. f_equal. lia.
Qed.

(** C9. Every run of [n] calls of [generateId] on one freshly constructed
    generator (with [n] at most 2^63, the number of non-negative [int64_t]
    values) returns [n] ids that are all non-negative, the first of which is 0,
    and each of which is strictly greater than every id returned before it. *)
Theorem generateId_fresh_increasing (n : nat) (Hn : Z.of_nat n <= 2 ^ 63) :
  let ids := (IdGenerator.generateIds n IdGenerator.init).1 in
  length ids = n /\
  (forall i x, ids !! i = Some x -> 0 <= x) /\
  (forall x, ids !! 0%nat = Some x -> x = 0) /\
  (forall i j x y, (i < j)%nat -> ids !! i = Some x -> ids !! j = Some y -> x < y).
Proof.
  intros ids.
  assert (Hlen : length ids = n) by apply generateIds_length.
  assert (Hlk : forall i x, ids !! i = Some x -> x = Z.of_nat i).
  { intros i x Hx.
    assert (Hi : (i < n)%nat) by (rewrite <- Hlen; by eapply lookup_lt_Some).
    unfold ids in Hx. rewrite generateIds_lookup in Hx by (simpl; lia).
    simpl in Hx. injection Hx as <-. lia. }
  split; [done|]. split; [|split].
  - intros i x Hx. apply Hlk in Hx. lia.
  - intros x Hx. by apply Hlk in Hx.
  - intros i j x y Hij Hx Hy. apply Hlk in Hx. apply Hlk in Hy. lia.
Qed.

Lemma generateId_fresh_increasing_witness :
  Z.of_nat 4 <= 2 ^ 63 /\
  (IdGenerator.generateIds 4 IdGenerator.init).1 = [0; 1; 2; 3] /\
  (forall i j x y, (i < j)%nat ->
     (IdGenerator.generateIds 4 IdGenerator.init).1 !! i = Some x ->
     (IdGenerator.generateIds 4 IdGenerator.init).1 !! j = Some y -> x < y).
Proof.
  split; [vm_compute; discriminate|].
  split; [reflexivity|].
  apply (generateId_fresh_increasing 4). vm_compute; discriminate.
Defined.

(** ** The variable store *)

Section VariableStore.
Context `{Externals}.

(** The three outcomes of a write. *)
Lemma setValue3_unfold id v isConst vars :
  Variables.setValue3 id v isConst vars =
    if negb (Variables.isUserDefinedVariable id) && negb (kSystemVarValidators id v)
    then (Err SystemVariableTypeMismatch, vars)
    else if Variables.hasConstantValue id vars then (Err ConstantViolation, vars)
    else (Ok tt, set_values (<[id := mkValueAndState v isConst]> (_values vars)) vars).
Proof.
  unfold Variables.setValue3, mbind, M_bind, get, throw, put. simpl.
  destruct (negb (Variables.isUserDefinedVariable id) && negb (kSystemVarValidators id v));
    [done|].
  by destruct (Variables.hasConstantValue id vars).
Qed.

(** A write never touches the let-parameter map. *)
Lemma setValue3_letParametersMap id v isConst vars :
  _letParametersMap (Variables.setValue3 id v isConst vars).2 = _letParametersMap vars.
Proof.
  rewrite setValue3_unfold.
  destruct (negb (Variables.isUserDefinedVariable id) && negb (kSystemVarValidators id v));
    [done|].
  by destruct (Variables.hasConstantValue id vars).
Qed.

Lemma applyWrites_letParametersMap ws vars :
  _letParametersMap (applyWrites ws vars) = _letParametersMap vars.
Proof.
  revert vars. induction ws as [|[[id v] c] ws IH]; intros vars; [done|].
  unfold applyWrites in *. simpl. rewrite IH. apply setValue3_letParametersMap.
Qed.

(** [hasValue] reads nothing but the id and the let-parameter map. *)
Lemma hasValue_ext id vars vars' :
  _letParametersMap vars' = _letParametersMap vars ->
  Variables.hasValue id vars' = Variables.hasValue id vars.
Proof. unfold Variables.hasValue. by intros ->. Qed.



(** C6. [hasValue(id)] is true for every system id ([id < 0]) whatever is
    stored; for a user id ([id >= 0]) it is true exactly when the id is a key
    of the let-parameter map; and no call of [setValue] or
    [setConstantValue], nor any sequence of such calls, changes its answer:
    a user id that is only assigned through them keeps [hasValue] false. *)
Theorem hasValue_system_or_let_parameter (vars : Variables) (id : Id) :
  (id < 0 -> Variables.hasValue id vars = true) /\
  (0 <= id ->
     (Variables.hasValue id vars = true <-> id ∈ dom (_letParametersMap vars))) /\
  (forall id' v,
     Variables.hasValue id (Variables.setValue id' v vars).2 = Variables.hasValue id vars /\
     Variables.hasValue id (Variables.setConstantValue id' v vars).2
       = Variables.hasValue id vars) /\
  (forall ws, 0 <= id -> Variables.hasValue id (applyWrites ws Variables.init) = false).
Proof.
  split; [|split; [|split]].
  - intros Hid. unfold Variables.hasValue.
    destruct (id <? 0) eqn:E; [done|]. apply Z.ltb_ge in E. lia.
  - intros Hid. unfold Variables.hasValue.
    destruct (id <? 0) eqn:E; [apply Z.ltb_lt in E; lia|].
    rewrite elem_of_dom.
    destruct (_letParametersMap vars !! id) as [x|]; split; intros Hx;
      first [done | by exists x | by destruct Hx].
  - intros id' v. split; apply hasValue_ext, setValue3_letParametersMap.
  - intros ws Hid.
    rewrite (hasValue_ext id Variables.init) by apply applyWrites_letParametersMap.
    unfold Variables.hasValue. simpl.
    destruct (id <? 0) eqn:E; [apply Z.ltb_lt in E; lia|]. done.
Qed.


(** The single-argument overload forwards to the two-argument one and adds
    no check of its own. *)
Lemma getValue1_forwards id vars :
  Variables.getValue1 id vars = Variables.getValue id emptyDocument vars.
Proof. reflexivity. Qed.

(** C1 (amended). For every [Variables] instance, the single-argument
    [getValue(id)] is [getValue(id, Document{})]; called with ROOT it does
    not fail: it returns the empty document as a value. *)
Theorem getValue1_root_is_empty_document (vars : Variables) :
  Variables.getValue1 Variables.kRootId vars = Ok (VObject emptyDocument) /\
  forall id, Variables.getValue1 id vars = Variables.getValue id emptyDocument vars.
Proof. split; [reflexivity | intros id; apply getValue1_forwards]. Qed.

End VariableStore.

(** Counterexample to C1 as it is claimed: on a freshly constructed
    [Variables] the call [getValue(ROOT)] returns a value and is no
    failure. *)
Lemma getValue1_root_does_not_fail :
  Variables.getValue1 Variables.kRootId Variables.init = Ok (VObject emptyDocument) /\
  ~ (exists e, Variables.getValue1 Variables.kRootId Variables.init = Err e).
Proof. split; [reflexivity | intros [e He]; discriminate He]. Qed.

Lemma hasValue_system_or_let_parameter_witness :
  let vars := (Variables.setValue (H := exampleExternals) 3 (VInt 5) Variables.init).2 in
  Variables.hasValue Variables.kNowId vars = true /\
  (Variables.hasValue 3 vars = true <-> 3 ∈ dom (_letParametersMap vars)) /\
  Variables.hasValue 3 vars = false /\
  Variables.hasValue 3 (set_letParametersMap {[ 3 := VInt 5 ]} vars) = true.
Proof.
  intros vars.
  destruct (hasValue_system_or_let_parameter (H := exampleExternals) vars Variables.kNowId)
    as [Hsys _].
  destruct (hasValue_system_or_let_parameter (H := exampleExternals) vars 3)
    as (_ & Huser & _).
  split; [apply Hsys; reflexivity|].
  split; [apply Huser; discriminate|].
  split; reflexivity.
Defined.



(** ** Lexical scopes *)

(** [getVariable] reads nothing of a scope but the entry of the name. *)
Lemma getVariable_ext name (s s' : VariablesParseState) :
  _variables s' !! name = _variables s !! name ->
  VariablesParseState.getVariable name s' = VariablesParseState.getVariable name s.
Proof. unfold VariablesParseState.getVariable. by intros ->. Qed.

(** A definition succeeds whenever the generator the scope points to exists,
    and then the scope maps the name to the id that was returned. *)
Lemma defineVariable_Ok name s w g :
  gen_load (vps_idGenerator s) w = Some g ->
  exists s' w',
    VariablesParseState.defineVariable name s w = (Ok (IdGenerator._nextId g, s'), w') /\
    _variables s' = <[name := IdGenerator._nextId g]> (_variables s) /\
    VariablesParseState.getVariable name s' = Ok (IdGenerator._nextId g).
Proof.
  intros Hg. unfold VariablesParseState.defineVariable. rewrite Hg. simpl.
  eexists _, _. split; [reflexivity|]. split; [reflexivity|].
  unfold VariablesParseState.getVariable. simpl. by rewrite lookup_insert_eq.
Qed.

(** A definition changes, of the scope's name map, the entry of the defined
    name only. *)
Lemma defineVariable_variables name s w r s' w' :
  VariablesParseState.defineVariable name s w = (Ok (r, s'), w') ->
  _variables s' = <[name := r]> (_variables s).
Proof.
  unfold VariablesParseState.defineVariable.
  destruct (gen_load (vps_idGenerator s) w) as [g|]; [|done].
  simpl. intros Heq. by injection Heq as <- <- <-.
Qed.

Lemma parentNames_cons op ops name :
  name ∉ parentNames (op :: ops) -> (name ∉ parentNames [op]) /\ (name ∉ parentNames ops).
Proof.
  destruct op as [n|n]; simpl; intros Hn.
  - apply not_elem_of_cons in Hn as [Hne Hn]. split; [|done].
    apply not_elem_of_cons. split; [done | apply not_elem_of_nil].
  - split; [apply not_elem_of_nil | done].
Qed.

Lemma childNames_cons op ops name :
  name ∉ childNames (op :: ops) -> (name ∉ childNames [op]) /\ (name ∉ childNames ops).
Proof.
  destruct op as [n|n]; simpl; intros Hn.
  - split; [apply not_elem_of_nil | done].
  - apply not_elem_of_cons in Hn as [Hne Hn]. split; [|done].
    apply not_elem_of_cons. split; [done | apply not_elem_of_nil].
Qed.

Lemma scope_step_parent st op name :
  name ∉ parentNames [op] ->
  _variables (parent (scope_step st op)) !! name = _variables (parent st) !! name.
Proof.
  intros Hn. destruct op as [n|n]; simpl.
  - destruct (VariablesParseState.defineVariable n (parent st) (world st))
      as [[[r s']|e] w'] eqn:Hd; [|done].
    simpl. rewrite (defineVariable_variables _ _ _ _ _ _ Hd).
    apply lookup_insert_ne. intros ->. apply Hn. simpl. by left.
  - by destruct (VariablesParseState.defineVariable n (child st) (world st))
      as [[[r s']|e] w'].
Qed.

Lemma scope_step_child st op name :
  name ∉ childNames [op] ->
  _variables (child (scope_step st op)) !! name = _variables (child st) !! name.
Proof.
  intros Hn. destruct op as [n|n]; simpl.
  - by destruct (VariablesParseState.defineVariable n (parent st) (world st))
      as [[[r s']|e] w'].
  - destruct (VariablesParseState.defineVariable n (child st) (world st))
      as [[[r s']|e] w'] eqn:Hd; [|done].
    simpl. rewrite (defineVariable_variables _ _ _ _ _ _ Hd).
    apply lookup_insert_ne. intros ->. apply Hn. simpl. by left.
Qed.

(** Whatever is defined in the one scope, under any interleaving, the other
    scope's entries of all other names stay as they were. *)
Lemma scope_run_frame ops st name :
  (name ∉ parentNames ops ->
     _variables (parent (scope_run ops st)) !! name = _variables (parent st) !! name) /\
  (name ∉ childNames ops ->
     _variables (child (scope_run ops st)) !! name = _variables (child st) !! name).
Proof.
  revert st. induction ops as [|op ops IH]; intros st; [done|].
  unfold scope_run in *. simpl foldl.
  destruct (IH (scope_step st op)) as [IHp IHc].
  split; intros Hn.
  - apply parentNames_cons in Hn as [Hop Hops].
    by rewrite IHp, scope_step_parent.
  - apply childNames_cons in Hn as [Hop Hops].
    by rewrite IHc, scope_step_child.
Qed.

(** C4. For every scope [S], generator pointer and world, the scope
    [C = S.copyWith(newGenerator)] starts with exactly the name-to-id entries
    of [S], so every lookup in [C] answers as in [S]; and after any sequence of
    later definitions in the two scopes, a name that was defined only in the
    child looks in the parent as it did before the fork (the lookup fails, or
    returns the parent's pre-fork id), and a name that was defined only in the
    parent looks in the child as it did at the fork. *)
Theorem copyWith_scopes_isolated (S : VariablesParseState) (newGenerator : GenPtr)
    (w : World) :
  let C := VariablesParseState.copyWith newGenerator S in
  _variables C = _variables S /\
  (forall name,
     VariablesParseState.getVariable name C = VariablesParseState.getVariable name S) /\
  (forall (ops : list ScopeOp) (name : string),
     let st := scope_run ops (mkScopes S C w) in
     (name ∉ parentNames ops ->
        VariablesParseState.getVariable name (parent st)
          = VariablesParseState.getVariable name S) /\
     (name ∉ childNames ops ->
        VariablesParseState.getVariable name (child st)
          = VariablesParseState.getVariable name S)).
Proof.
  intros C. split; [done|]. split; [done|].
  intros ops name st.
  destruct (scope_run_frame ops (mkScopes S C w) name) as [Hp Hc].
  subst st. split; intros Hn; apply getVariable_ext.
  - by apply Hp.
  - by rewrite Hc.
Qed.

Lemma copyWith_scopes_isolated_witness :
  let S := mkVariablesParseState (GenAt 1%positive) {[ "x" := 0 ]} 0 in
  let w := mkWorld ∅ {[ 1%positive := IdGenerator.mk 1; 2%positive := IdGenerator.init ]}
             ∅ 1%positive in
  let st := scope_run [DefineInChild "y"; DefineInParent "z"; DefineInChild "x"]
              (mkScopes S (VariablesParseState.copyWith (GenAt 2%positive) S) w) in
  (VariablesParseState.getVariable "y" (child st) = Ok 0 /\
   VariablesParseState.getVariable "x" (child st) = Ok 1 /\
   VariablesParseState.getVariable "z" (parent st) = Ok 1) /\
  (VariablesParseState.getVariable "y" (parent st) = Err (UndefinedVariable "y") /\
   VariablesParseState.getVariable "x" (parent st) = Ok 0 /\
   VariablesParseState.getVariable "z" (child st) = Err (UndefinedVariable "z")).
Proof.
  intros S w st.
  split; [by vm_compute|].
  pose proof (copyWith_scopes_isolated S (GenAt 2%positive) w) as (_ & _ & Hiso).
  destruct (Hiso [DefineInChild "y"; DefineInParent "z"; DefineInChild "x"] "y") as [Hy _].
  destruct (Hiso [DefineInChild "y"; DefineInParent "z"; DefineInChild "x"] "x") as [Hx _].
  destruct (Hiso [DefineInChild "y"; DefineInParent "z"; DefineInChild "x"] "z") as [_ Hz].
  assert (Hyz : "y" ∉ ["z"]) by (apply not_elem_of_cons; split; [done | apply not_elem_of_nil]).
  assert (Hxz : "x" ∉ ["z"]) by (apply not_elem_of_cons; split; [done | apply not_elem_of_nil]).
  assert (Hzyx : "z" ∉ ["y"; "x"]).
  { apply not_elem_of_cons; split; [done|].
    apply not_elem_of_cons; split; [done | apply not_elem_of_nil]. }
  split; [|split].
  - etrans; [apply Hy, Hyz | reflexivity].
  - etrans; [apply Hx, Hxz | reflexivity].
  - etrans; [apply Hz, Hzyx | reflexivity].
Defined.

(** ** The expression context: the amortized interrupt check *)

Lemma ctx_get_Some a w c : w_ctxs w !! a = Some c -> ctx_get a w = (Ok c, w).
Proof. unfold ctx_get. by intros ->. Qed.

Lemma ctx_get_None a w : w_ctxs w !! a = None -> ctx_get a w = (Err InvariantFailure, w).
Proof. unfold ctx_get. by intros ->. Qed.

(** Division and remainder of the successor, for the countdown. *)
Lemma succ_div_mod (k p : Z) :
  0 <= k -> 0 < p ->
  (k mod p = p - 1 -> (k + 1) / p = k / p + 1 /\ (k + 1) mod p = 0) /\
  (k mod p <> p - 1 -> (k + 1) / p = k / p /\ (k + 1) mod p = k mod p + 1).
Proof.
  intros Hk Hp.
  pose proof (Z.div_mod k p ltac:(lia)) as Hdm.
  pose proof (Z.mod_pos_bound k p Hp) as Hb.
  split; intros Hr.
  - assert (Hq : (k + 1) / p = k / p + 1)
      by (symmetry; apply (Z.div_unique_pos _ _ _ 0); lia).
    split; [done|].
    symmetry; apply (Z.mod_unique_pos _ _ (k / p + 1)); lia.
  - assert (Hq : (k + 1) / p = k / p)
      by (symmetry; apply (Z.div_unique_pos _ _ _ (k mod p + 1)); lia).
    split; [done|].
    symmetry; apply (Z.mod_unique_pos _ _ (k / p)); lia.
Qed.

Section InterruptCheck.
Context `{Externals}.

(** One call, spelled out. *)
Lemma checkForInterrupt_unfold this w c :
  w_ctxs w !! this = Some c ->
  ExpressionContext.checkForInterrupt this w =
    let counter := wrap32 (_interruptCounter c - 1) in
    let w1 := set_ctxs (<[this := set_interruptCounter counter c]> (w_ctxs w)) w in
    if counter =? 0 then
      match opCtx c with
      | None => (Err InvariantFailure, w1)
      | Some oc =>
          OperationContext_checkForInterrupt oc
            (set_ctxs (<[this := set_interruptCounter kInterruptCheckPeriod c]> (w_ctxs w)) w)
      end
    else (Ok tt, w1).
Proof.
  intros Hc. unfold ExpressionContext.checkForInterrupt, mbind, M_bind.
  rewrite (ctx_get_Some _ _ _ Hc). unfold ctx_put. simpl.
  destruct (wrap32 (_interruptCounter c - 1) =? 0); [|done].
  destruct (opCtx c) as [oc|]; [|done].
  simpl. by rewrite insert_insert_eq.
Qed.

Lemma checkForInterrupt_step this oc n0 k w :
  0 < kInterruptCheckPeriod <= INT_MAX -> 0 <= k ->
  after_calls this oc n0 k w ->
  exists w', ExpressionContext.checkForInterrupt this w = (Ok tt, w') /\
             after_calls this oc n0 (k + 1) w'.
Proof.
  intros [Hpos Hmax] Hk [(c & Hc & Hoc & Hcnt) Ho].
  unfold INT_MAX in Hmax.
  pose proof (Z.mod_pos_bound k kInterruptCheckPeriod Hpos) as Hb.
  destruct (succ_div_mod k kInterruptCheckPeriod Hk Hpos) as [Hlast Hnot].
  rewrite (checkForInterrupt_unfold _ _ _ Hc). cbv zeta.
  rewrite Hcnt, wrap32_small by lia.
  destruct (kInterruptCheckPeriod - k mod kInterruptCheckPeriod - 1 =? 0) eqn:E.
  - apply Z.eqb_eq in E. destruct Hlast as [Hq Hr]; [lia|].
    rewrite Hoc. unfold OperationContext_checkForInterrupt. simpl. rewrite Ho. simpl.
    eexists. split; [reflexivity|]. split.
    + eexists. simpl. rewrite lookup_insert_eq. split; [done|].
      destruct c; simpl in *. split; [done | lia].
    + simpl. rewrite lookup_insert_eq, Hq. do 2 f_equal. lia.
  - apply Z.eqb_neq in E. destruct Hnot as [Hq Hr]; [lia|].
    eexists. split; [reflexivity|]. split.
    + eexists. simpl. rewrite lookup_insert_eq. split; [done|].
      destruct c; simpl in *. split; [done | lia].
    + simpl. by rewrite Hq.
Qed.

Lemma checkForInterrupt_run this oc n0 (n : nat) k w :
  0 < kInterruptCheckPeriod <= INT_MAX -> 0 <= k ->
  after_calls this oc n0 k w ->
  exists w', repeatM n (ExpressionContext.checkForInterrupt this) w = (Ok tt, w') /\
             after_calls this oc n0 (k + Z.of_nat n) w'.
Proof.
  intros Hp. revert k w. induction n as [|n IH]; intros k w Hk Hst.
  - exists w. split; [done|]. by replace (k + Z.of_nat 0) with k by lia.
  - destruct (checkForInterrupt_step _ _ _ _ _ Hp Hk Hst) as (w1 & Hcall & Hst1).
    destruct (IH (k + 1) w1 ltac:(lia) Hst1) as (w2 & Hrun & Hst2).
    exists w2. split.
    + simpl. unfold mbind, M_bind. by rewrite Hcall.
    + by replace (k + Z.of_nat (S n)) with (k + 1 + Z.of_nat n) by lia.
Qed.

(** C2. On one expression context with an operation context on which no
    interruption is pending, and with the countdown freshly reset to the
    period, every sequence of [n] calls of [checkForInterrupt()] returns
    normally and has invoked the operation context's check exactly
    [n / period] times (rounded down), leaving the countdown at
    [period - n mod period].  Moreover, in any state, a call whose
    decremented countdown is not zero changes nothing but the countdown (it
    performs no check), and a call whose decremented countdown is zero
    invokes the check once and leaves the countdown at the period. *)
Theorem checkForInterrupt_once_per_period (w : World) (this oc : addr)
    (c : ExpressionContext) (o : OperationContext)
    (Hperiod : 0 < kInterruptCheckPeriod <= INT_MAX)
    (Hctx : w_ctxs w !! this = Some c)
    (HopCtx : opCtx c = Some oc)
    (Ho : w_opCtxs w !! oc = Some o)
    (Hpending : interruptPending o = false)
    (Hreset : _interruptCounter c = kInterruptCheckPeriod) :
  (forall n : nat,
     exists w' c',
       repeatM n (ExpressionContext.checkForInterrupt this) w = (Ok tt, w') /\
       w_opCtxs w' !! oc
         = Some (mkOperationContext false
                   (interruptChecks o + Z.of_nat n / kInterruptCheckPeriod)) /\
       w_ctxs w' !! this = Some c' /\
       _interruptCounter c'
         = kInterruptCheckPeriod - Z.of_nat n mod kInterruptCheckPeriod) /\
  (forall w1 c1 o1,
     w_ctxs w1 !! this = Some c1 -> opCtx c1 = Some oc -> w_opCtxs w1 !! oc = Some o1 ->
     let counter := wrap32 (_interruptCounter c1 - 1) in
     (counter <> 0 ->
        ExpressionContext.checkForInterrupt this w1
          = (Ok tt, set_ctxs (<[this := set_interruptCounter counter c1]> (w_ctxs w1)) w1)) /\
     (counter = 0 ->
        exists r w2,
          ExpressionContext.checkForInterrupt this w1 = (r, w2) /\
          w_ctxs w2 !! this = Some (set_interruptCounter kInterruptCheckPeriod c1) /\
          w_opCtxs w2 !! oc
            = Some (mkOperationContext (interruptPending o1) (interruptChecks o1 + 1)))).
Proof.
  split.
  - intros n.
    assert (Hst : after_calls this oc (interruptChecks o) 0 w).
    { split.
      - exists c. rewrite Z.mod_0_l by lia. split; [done|]. split; [done | lia].
      - rewrite Z.div_0_l by lia. rewrite Ho. destruct o; simpl in *. subst.
        do 2 f_equal. lia. }
    destruct (checkForInterrupt_run this oc _ n 0 w Hperiod ltac:(lia) Hst)
      as (w' & Hrun & (c' & Hc' & _ & Hcnt) & Ho').
    exists w', c'. rewrite Z.add_0_l in *. done.
  - intros w1 c1 o1 Hc1 Hoc1 Ho1 counter.
    rewrite (checkForInterrupt_unfold _ _ _ Hc1). cbv zeta. fold counter.
    split; intros Hcounter.
    + apply Z.eqb_neq in Hcounter. by rewrite Hcounter.
    + rewrite Hcounter. simpl. rewrite Hoc1.
      unfold OperationContext_checkForInterrupt. simpl. rewrite Ho1.
      destruct (interruptPending o1); eexists _, _; (split; [reflexivity|]); simpl;
        by rewrite !lookup_insert_eq.
Qed.

End InterruptCheck.

(** ** The expression context: construction *)

Lemma constants_at_Some a w c :
  w_ctxs w !! a = Some c -> constants_at a w = Some (_runtimeConstants (variables c)).
Proof. unfold constants_at. by intros ->. Qed.

Lemma constants_at_is_Some a w x :
  constants_at a w = Some x -> is_Some (w_ctxs w !! a).
Proof. unfold constants_at. destruct (w_ctxs w !! a); [eauto | done]. Qed.

Lemma keeps_constants_ret {A} a (x : A) : keeps_constants a (mret x).
Proof. by intros w _. Qed.

Lemma keeps_constants_throw {A} a e : keeps_constants a (throw (A := A) e).
Proof. by intros w _. Qed.

Lemma keeps_constants_get a : keeps_constants a get.
Proof. by intros w _. Qed.

Lemma keeps_constants_ctx_get a b : keeps_constants a (ctx_get b).
Proof. intros w _. unfold ctx_get. by destruct (w_ctxs w !! b). Qed.

Lemma keeps_constants_bind {A B} a (m : M World A) (k : A -> M World B) :
  keeps_constants a m -> (forall x, keeps_constants a (k x)) ->
  keeps_constants a (x ← m; k x).
Proof.
  intros Hm Hk w Hw. specialize (Hm w Hw). unfold mbind, M_bind.
  destruct (m w) as [[x|e] w1]; simpl in *; [|done].
  rewrite <- Hm. apply Hk.
  destruct Hw as [c Hc]. rewrite (constants_at_Some _ _ _ Hc) in Hm.
  by eapply constants_at_is_Some.
Qed.

Lemma keeps_constants_ctx_modify a b f :
  (forall c, _runtimeConstants (variables (f c)) = _runtimeConstants (variables c)) ->
  keeps_constants a (ctx_modify b f).
Proof.
  intros Hf w Hw. unfold ctx_modify, mbind, M_bind, ctx_get, ctx_put.
  destruct (w_ctxs w !! b) as [c|] eqn:Hb; simpl; [|done].
  unfold constants_at. simpl.
  destruct (decide (b = a)) as [->|Hne].
  - rewrite lookup_insert_eq, Hb. simpl. f_equal. apply Hf.
  - by rewrite lookup_insert_ne.
Qed.

Lemma keeps_constants_gen_store a p g w :
  constants_at a (gen_store p g w) = constants_at a w.
Proof.
  destruct p as [b|b]; simpl; [|done].
  unfold constants_at. simpl. rewrite lookup_alter.
  case_decide as Hab; [|done]. subst b.
  by destruct (w_ctxs w !! a) as [[]|].
Qed.

Lemma keeps_constants_defineVariable a name s :
  keeps_constants a (VariablesParseState.defineVariable name s).
Proof.
  intros w _. unfold VariablesParseState.defineVariable.
  destruct (gen_load (vps_idGenerator s) w); [|done].
  simpl. apply keeps_constants_gen_store.
Qed.

Lemma keeps_constants_on_variables {A} a b (m : M Variables A) :
  (forall vars, _runtimeConstants (m vars).2 = _runtimeConstants vars) ->
  keeps_constants a (ExpressionContext.on_variables b m).
Proof.
  intros Hm w Hw. unfold ExpressionContext.on_variables, mbind, M_bind, ctx_get, ctx_put.
  destruct (w_ctxs w !! b) as [c|] eqn:Hb; simpl; [|done].
  specialize (Hm (variables c)).
  destruct (m (variables c)) as [r vars]. simpl in *.
  assert (Hput : constants_at a (set_ctxs (<[b := set_variables vars c]> (w_ctxs w)) w)
                 = constants_at a w).
  { unfold constants_at. simpl.
    destruct (decide (b = a)) as [->|Hne].
    - rewrite lookup_insert_eq, Hb. simpl. f_equal. by destruct c.
    - by rewrite lookup_insert_ne. }
  by destruct r.
Qed.

Lemma keeps_constants_ctx_defineVariable a expCtx name :
  keeps_constants a (ExpressionContext.defineVariable expCtx name).
Proof.
  unfold ExpressionContext.defineVariable.
  apply keeps_constants_bind; [apply keeps_constants_ctx_get|]. intros c.
  apply keeps_constants_bind; [apply keeps_constants_defineVariable|]. intros [id vps].
  apply keeps_constants_bind; [by apply keeps_constants_ctx_modify; intros []|]. intros _.
  apply keeps_constants_ret.
Qed.

Section Construction.
Context `{Externals}.

(** Storing a let parameter leaves the runtime constants alone. *)
Lemma store_let_parameter_constants id v vars :
  _runtimeConstants
    ((_ ← Variables.setConstantValue id v;
      vs ← get;
      put (set_letParametersMap (<[id := v]> (_letParametersMap vs)) vs)) vars).2
  = _runtimeConstants vars.
Proof.
  unfold mbind, M_bind, Variables.setConstantValue. rewrite setValue3_unfold.
  destruct (negb (Variables.isUserDefinedVariable id) && negb (kSystemVarValidators id v));
    [done|].
  by destruct (Variables.hasConstantValue id vars).
Qed.

Lemma keeps_constants_seed a expCtx letParameters :
  keeps_constants a (ExpressionContext.seedVariablesWithLetParameters expCtx letParameters).
Proof.
  induction letParameters as [|[name raw] rest IH]; simpl.
  - apply keeps_constants_ret.
  - destruct (negb (validateNameForUserWrite name)); [apply keeps_constants_throw|].
    apply keeps_constants_bind; [apply keeps_constants_ctx_defineVariable|]. intros id.
    apply keeps_constants_bind; [apply keeps_constants_get|]. intros w.
    destruct (evaluateLetParameter expCtx w raw) as [v|e]; [|apply keeps_constants_throw].
    apply keeps_constants_bind; [|by intros _].
    apply keeps_constants_on_variables. intros vars. apply store_let_parameter_constants.
Qed.

(** What the resolution of lines 112-122 arrives at. *)
Lemma resolveRuntimeConstants_init opCtx runtimeConstants :
  ExpressionContext.resolveRuntimeConstants opCtx runtimeConstants Variables.init
  = (Ok tt,
     set_runtimeConstants
       (Some match runtimeConstants with
             | Some rc =>
                 if Timestamp_isNull (getClusterTime rc) then
                   mkRuntimeConstants (getLocalNow (generateRuntimeConstants opCtx))
                     (getClusterTime (generateRuntimeConstants opCtx))
                     (getJsScope rc) (getIsMapReduce rc)
                 else rc
             | None => generateRuntimeConstants opCtx
             end)
       Variables.init).
Proof.
  unfold ExpressionContext.resolveRuntimeConstants.
  destruct runtimeConstants as [rc|]; [|done].
  by destruct (Timestamp_isNull (getClusterTime rc)).
Qed.

Context (this : addr) (opCtx : option addr) (explain : option Verbosity).
Context (fromMongos needsMerge allowDiskUse bypassDocumentValidation isMapReduce : bool).
Context (ns : NamespaceString) (runtimeConstants : option RuntimeConstants).
Context (collator : option CollatorInterface) (mongoProcessInterface : option addr).
Context (resolvedNamespaces : gmap string ResolvedNamespace) (collUUID : option UUID).
Context (mayDbProfile : bool).

(** The constants of every context the constructor returns, and that it
    returns one when no let parameters are given. *)
Lemma ctor_constants (letParameters : option Document) (w : World) :
  let gen := generateRuntimeConstants opCtx in
  let resolved :=
    match runtimeConstants with
    | Some rc =>
        if Timestamp_isNull (getClusterTime rc) then
          mkRuntimeConstants (getLocalNow gen) (getClusterTime gen)
            (getJsScope rc) (getIsMapReduce rc)
        else rc
    | None => gen
    end in
  (forall w',
     ExpressionContext.ctor this opCtx explain fromMongos needsMerge allowDiskUse
       bypassDocumentValidation isMapReduce ns runtimeConstants collator
       mongoProcessInterface resolvedNamespaces collUUID mayDbProfile letParameters w
     = (Ok tt, w') ->
     constants_at this w' = Some (Some resolved)) /\
  (exists w',
     ExpressionContext.ctor this opCtx explain fromMongos needsMerge allowDiskUse
       bypassDocumentValidation isMapReduce ns runtimeConstants collator
       mongoProcessInterface resolvedNamespaces collUUID mayDbProfile None w
     = (Ok tt, w') /\
     constants_at this w' = Some (Some resolved)).
Proof.
  intros gen resolved.
  pose proof (resolveRuntimeConstants_init opCtx runtimeConstants) as Hres.
  fold gen in Hres. fold resolved in Hres.
  (* the state after the initializer list and the resolution *)
  set (c0 := mkExpressionContext explain fromMongos needsMerge false allowDiskUse
               bypassDocumentValidation ns collUUID "" opCtx mongoProcessInterface
               Variables.init (VariablesParseState.ctor (Variables.useIdGenerator this))
               None 0 mayDbProfile None collator
               (mkDocumentComparator (collator_get collator))
               (mkValueComparator (collator_get collator))
               resolvedNamespaces kInterruptCheckPeriod).
  set (c1 := set_variables (set_runtimeConstants (Some resolved) Variables.init) c0).
  set (w1 := set_ctxs (<[this := c1]> (w_ctxs w)) w).
  assert (Hw1 : constants_at this w1 = Some (Some resolved)).
  { unfold constants_at, w1. simpl. by rewrite lookup_insert_eq. }
  assert (Hrest : forall lp, exists rest : M World unit,
    ExpressionContext.ctor this opCtx explain fromMongos needsMerge allowDiskUse
      bypassDocumentValidation isMapReduce ns runtimeConstants collator
      mongoProcessInterface resolvedNamespaces collUUID mayDbProfile lp w
    = match rest w1 with
      | (Ok _, w2) => (Ok tt, w2)
      | (Err e, _) => (Err e, w)
      end /\
    constants_at this (rest w1).2 = Some (Some resolved) /\
    (lp = None -> is_Ok (rest w1).1 = true)).
  { intros lp.
    exists (_ ← (if negb isMapReduce then
                   ctx_modify this
                     (set_jsHeapLimitMB (Some internalQueryJavaScriptHeapSizeLimitMB))
                 else mret tt);
            match lp with
            | Some l => ExpressionContext.seedVariablesWithLetParameters this l
            | None => mret tt
            end).
    split; [|split].
    - unfold ExpressionContext.ctor. fold c0.
      unfold mbind at 1. unfold M_bind at 1. unfold ctx_put at 1.
      unfold mbind at 1. unfold M_bind at 1.
      unfold ExpressionContext.on_variables at 1.
      unfold mbind at 1. unfold M_bind at 1. unfold ctx_get at 1. simpl w_ctxs.
      rewrite lookup_insert_eq. change (variables c0) with Variables.init. rewrite Hres.
      unfold mbind at 1. unfold M_bind at 1. unfold ctx_put at 1.
      simpl w_ctxs. rewrite insert_insert_eq. simpl. reflexivity.
    - rewrite <- Hw1.
      apply keeps_constants_bind; [| |by eapply constants_at_is_Some].
      + destruct (negb isMapReduce); [|apply keeps_constants_ret].
        apply keeps_constants_ctx_modify. by intros [].
      + intros _. destruct lp; [apply keeps_constants_seed | apply keeps_constants_ret].
    - intros ->. unfold mbind, M_bind, ctx_modify, mbind, M_bind, ctx_get, ctx_put.
      destruct (negb isMapReduce); [|done].
      unfold w1. simpl. by rewrite lookup_insert_eq. }
  split.
  - intros w' Hctor. destruct (Hrest letParameters) as (rest & Heq & Hkeep & _).
    rewrite Heq in Hctor.
    destruct (rest w1) as [[[]|e] w2]; [|done].
    simpl in Hkeep. by injection Hctor as <-.
  - destruct (Hrest None) as (rest & Heq & Hkeep & HOk).
    specialize (HOk eq_refl). rewrite Heq.
    destruct (rest w1) as [[[]|e] w2]; [|done].
    simpl in Hkeep. by exists w2.
Qed.

(** C3. For every input of the constructor that takes the execution flags:
    the runtime constants it resolves are, when explicit constants with a
    null cluster time are supplied, the constants synthesized from the clock
    with the supplied script scope and map-reduce flag copied onto them;
    when explicit constants with a non-null cluster time are supplied, those
    constants unchanged; when none are supplied, the synthesized constants.
    Every context the constructor returns holds these constants, and without
    let parameters the constructor always returns one. *)
Theorem ctor_resolves_runtime_constants (letParameters : option Document) (w : World) :
  let gen := generateRuntimeConstants opCtx in
  let resolved :=
    match runtimeConstants with
    | Some rc =>
        if Timestamp_isNull (getClusterTime rc) then
          mkRuntimeConstants (getLocalNow gen) (getClusterTime gen)
            (getJsScope rc) (getIsMapReduce rc)
        else rc
    | None => gen
    end in
  ExpressionContext.resolveRuntimeConstants opCtx runtimeConstants Variables.init
    = (Ok tt, set_runtimeConstants (Some resolved) Variables.init) /\
  (forall w',
     ExpressionContext.ctor this opCtx explain fromMongos needsMerge allowDiskUse
       bypassDocumentValidation isMapReduce ns runtimeConstants collator
       mongoProcessInterface resolvedNamespaces collUUID mayDbProfile letParameters w
     = (Ok tt, w') ->
     constants_at this w' = Some (Some resolved)) /\
  (exists w',
     ExpressionContext.ctor this opCtx explain fromMongos needsMerge allowDiskUse
       bypassDocumentValidation isMapReduce ns runtimeConstants collator
       mongoProcessInterface resolvedNamespaces collUUID mayDbProfile None w
     = (Ok tt, w') /\
     constants_at this w' = Some (Some resolved)).
Proof.
  intros gen resolved. split.
  - apply resolveRuntimeConstants_init.
  - apply ctor_constants.
Qed.

End Construction.

(** The three cases on the example clock, which reads local time 1000 and
    cluster time (7, 1). *)
Example resolveRuntimeConstants_examples :
  let resolve rc :=
    _runtimeConstants
      (ExpressionContext.resolveRuntimeConstants (H := exampleExternals) None rc
         Variables.init).2 in
  resolve (Some (mkRuntimeConstants 5 (mkTimestamp 0 0) (Some [("k", VInt 1)]) true))
    = Some (mkRuntimeConstants 1000 (mkTimestamp 7 1) (Some [("k", VInt 1)]) true) /\
  resolve (Some (mkRuntimeConstants 5 (mkTimestamp 3 0) (Some [("k", VInt 1)]) true))
    = Some (mkRuntimeConstants 5 (mkTimestamp 3 0) (Some [("k", VInt 1)]) true) /\
  resolve None = Some (mkRuntimeConstants 1000 (mkTimestamp 7 1) None false).
Proof. by vm_compute. Qed.

Section OtherConstructors.
Context `{Externals}.

(** X14. The constructor taking an aggregation request resolves the constants
    of the request in the same way, and always returns. *)
Lemma ctorFromRequest_constants this opCtx request collator processInterface
    resolvedNamespaces collUUID mayDbProfile w :
  exists w',
    ExpressionContext.ctorFromRequest this opCtx request collator processInterface
      resolvedNamespaces collUUID mayDbProfile w = (Ok tt, w') /\
    constants_at this w'
    = Some (Some match req_getRuntimeConstants request with
                 | Some rc =>
                     if Timestamp_isNull (getClusterTime rc) then
                       mkRuntimeConstants (getLocalNow (generateRuntimeConstants opCtx))
                         (getClusterTime (generateRuntimeConstants opCtx))
                         (getJsScope rc) (getIsMapReduce rc)
                     else rc
                 | None => generateRuntimeConstants opCtx
                 end).
Proof.
  destruct (ctor_constants this opCtx (getExplain request) (isFromMongos request)
              (req_needsMerge request) (shouldAllowDiskUse request)
              (shouldBypassDocumentValidation request) (getIsMapReduceCommand request)
              (getNamespaceString request) (req_getRuntimeConstants request) collator
              processInterface resolvedNamespaces collUUID mayDbProfile None w)
    as [_ (w1 & Hctor & Hconst)].
  unfold ExpressionContext.ctorFromRequest, mbind, M_bind. rewrite Hctor.
  destruct (getIsMapReduceCommand request); [|by exists w1].
  destruct (constants_at_is_Some _ _ _ Hconst) as [c1 Hc1].
  unfold ctx_modify, mbind, M_bind. rewrite (ctx_get_Some _ _ _ Hc1). unfold ctx_put.
  eexists. split; [reflexivity|].
  rewrite <- Hconst. unfold constants_at. simpl. rewrite lookup_insert_eq, Hc1.
  simpl. by destruct c1.
Qed.

(** X15. The constructor taking only a collator and a namespace takes explicit
    constants as they are, whatever their cluster time, and sets none when
    none are given. *)
Lemma ctorWithStub_constants this opCtx collator nss runtimeConstants mayDbProfile w :
  exists w',
    ExpressionContext.ctorWithStub this opCtx collator nss runtimeConstants mayDbProfile w
      = (Ok tt, w') /\
    constants_at this w' = Some runtimeConstants.
Proof.
  unfold ExpressionContext.ctorWithStub, ExpressionContext.on_variables,
    Variables.setRuntimeConstants, ctx_modify, mbind, M_bind, ctx_get, ctx_put, get, put.
  destruct runtimeConstants as [rc|]; simpl; rewrite ?lookup_insert_eq; simpl.
  - rewrite lookup_insert_eq. simpl. eexists. split; [reflexivity|].
    unfold constants_at. simpl. by rewrite lookup_insert_eq.
  - eexists. split; [reflexivity|].
    unfold constants_at. simpl. by rewrite lookup_insert_eq.
Qed.

End OtherConstructors.

(** ** The expression context: the scoped collator override *)

Lemma setCollator_unfold this k w c :
  w_ctxs w !! this = Some c ->
  ExpressionContext.setCollator this k w
  = (Ok tt,
     set_ctxs (<[this := set_comparators (mkDocumentComparator (collator_get k))
                           (mkValueComparator (collator_get k)) (set_collator k c)]>
                 (w_ctxs w)) w).
Proof.
  intros Hc. unfold ExpressionContext.setCollator, mbind, M_bind.
  by rewrite (ctx_get_Some _ _ _ Hc).
Qed.

Lemma temporarilyChangeCollator_unfold this k w c :
  w_ctxs w !! this = Some c ->
  ExpressionContext.temporarilyChangeCollator this k w
  = (Ok (ExpressionContext.CollatorStash.mk this (_collator c)),
     set_ctxs (<[this := set_comparators (mkDocumentComparator (collator_get k))
                           (mkValueComparator (collator_get k)) (set_collator k c)]>
                 (w_ctxs w)) w).
Proof.
  intros Hc.
  unfold ExpressionContext.temporarilyChangeCollator, ExpressionContext.CollatorStash.ctor.
  unfold mbind at 1. unfold M_bind at 1. rewrite (ctx_get_Some _ _ _ Hc).
  unfold mbind at 1. unfold M_bind at 1. unfold ctx_put at 1.
  unfold mbind at 1. unfold M_bind at 1.
  rewrite (setCollator_unfold _ _ _ (set_collator None c)) by (simpl; apply lookup_insert_eq).
  simpl. rewrite insert_insert_eq. by destruct c.
Qed.

(** C5. For every expression context and every new collator,
    [temporarilyChangeCollator] returns a handle and installs the new
    collator; after any operations whatsoever that leave the context alive
    (the handle keeps a reference to it), releasing the handle puts back the
    collator the context had at acquisition - the same object, with the same
    identity - and the document and value comparators built from it.  The same
    holds when the handle is released by leaving the block that owns it,
    whether the block's body returns or throws. *)
Theorem collator_stash_restores_original (w : World) (this : addr) (c : ExpressionContext)
    (newCollator : option CollatorInterface) (Hctx : w_ctxs w !! this = Some c) :
  let restored (c3 : ExpressionContext) :=
    _collator c3 = _collator c /\
    collator_get (_collator c3) = collator_get (_collator c) /\
    _documentComparator c3 = mkDocumentComparator (collator_get (_collator c)) /\
    _valueComparator c3 = mkValueComparator (collator_get (_collator c)) in
  exists stash w1,
    ExpressionContext.temporarilyChangeCollator this newCollator w = (Ok stash, w1) /\
    (exists c1, w_ctxs w1 !! this = Some c1 /\ _collator c1 = newCollator) /\
    (forall w2 c2,
       w_ctxs w2 !! this = Some c2 ->
       exists w3 c3,
         ExpressionContext.CollatorStash.dtor stash w2 = (Ok tt, w3) /\
         w_ctxs w3 !! this = Some c3 /\ restored c3) /\
    (forall (A : Type) (body : M World A) (r : result A) (w3 : World),
       (forall w', is_Some (w_ctxs w' !! this) -> is_Some (w_ctxs (body w').2 !! this)) ->
       ExpressionContext.withTemporaryCollator this newCollator body w = (r, w3) ->
       r <> Err InvariantFailure ->
       exists c3, w_ctxs w3 !! this = Some c3 /\ restored c3).
Proof.
  intros restored.
  pose proof (temporarilyChangeCollator_unfold this newCollator w c Hctx) as Hacq.
  eexists _, _. split; [exact Hacq|].
  assert (Hrel : forall w2 c2,
            w_ctxs w2 !! this = Some c2 ->
            exists w3 c3,
              ExpressionContext.CollatorStash.dtor
                (ExpressionContext.CollatorStash.mk this (_collator c)) w2 = (Ok tt, w3) /\
              w_ctxs w3 !! this = Some c3 /\ restored c3).
  { intros w2 c2 Hc2. unfold ExpressionContext.CollatorStash.dtor. simpl.
    rewrite (setCollator_unfold _ _ _ _ Hc2).
    eexists _, _. split; [reflexivity|]. simpl. rewrite lookup_insert_eq.
    split; [reflexivity|]. unfold restored. by destruct c2. }
  split; [|split].
  - eexists. simpl. rewrite lookup_insert_eq. split; [reflexivity|]. by destruct c.
  - exact Hrel.
  - intros A body r w3 Halive Hrun Hr.
    unfold ExpressionContext.withTemporaryCollator in Hrun. rewrite Hacq in Hrun.
    match type of Hrun with context [body ?x] => set (w1 := x) in * end.
    assert (Hw1 : is_Some (w_ctxs w1 !! this)) by (unfold w1; simpl; by rewrite lookup_insert_eq).
    apply Halive in Hw1 as [c2 Hc2].
    destruct (body w1) as [r2 w2]. simpl in Hc2.
    destruct (Hrel w2 c2 Hc2) as (w3' & c3 & Hd & Hc3 & Hres).
    assert (Hcase : (r, w3) = (r2, w3') \/ r2 = Err InvariantFailure /\ r = r2).
    { destruct r2 as [a|e]; [rewrite Hd in Hrun; left; by injection Hrun as <- <-|].
      destruct e; first [rewrite Hd in Hrun; left; by injection Hrun as <- <-
                        | right; by injection Hrun as <- <-]. }
    destruct Hcase as [Heq | [-> ->]]; [|done].
    injection Heq as -> ->. by exists c3.
Qed.

(** ** The expression context: copies for sub-pipelines *)

Section Copy.
Context `{Externals}.

(** The constructor called without explicit constants and without let
    parameters always returns, and builds this context. *)
Lemma ctor_plain this opCtx explain fromMongos needsMerge allowDiskUse
    bypassDocumentValidation isMapReduce ns collator mongoProcessInterface
    resolvedNamespaces collUUID mayDbProfile w :
  ExpressionContext.ctor this opCtx explain fromMongos needsMerge allowDiskUse
    bypassDocumentValidation isMapReduce ns None collator mongoProcessInterface
    resolvedNamespaces collUUID mayDbProfile None w
  = (Ok tt,
     set_ctxs
       (<[this :=
            mkExpressionContext explain fromMongos needsMerge false allowDiskUse
              bypassDocumentValidation ns collUUID "" opCtx mongoProcessInterface
              (set_runtimeConstants (Some (generateRuntimeConstants opCtx)) Variables.init)
              (VariablesParseState.ctor (Variables.useIdGenerator this))
              None 0 mayDbProfile
              (if isMapReduce then None
               else Some internalQueryJavaScriptHeapSizeLimitMB)
              collator (mkDocumentComparator (collator_get collator))
              (mkValueComparator (collator_get collator))
              resolvedNamespaces kInterruptCheckPeriod]>
          (w_ctxs w)) w).
Proof.
  unfold ExpressionContext.ctor, ExpressionContext.on_variables,
    ExpressionContext.resolveRuntimeConstants, ctx_modify, mbind, M_bind, ctx_get, ctx_put.
  simpl. rewrite lookup_insert_eq. simpl. rewrite insert_insert_eq.
  destruct isMapReduce; simpl; [done|].
  rewrite lookup_insert_eq. simpl. by rewrite insert_insert_eq.
Qed.

Lemma copy_collator_ctxs p uc w : w_ctxs (copy_collator p uc w).2 = w_ctxs w.
Proof. unfold copy_collator. destruct uc; [done|]. by destruct (_collator p). Qed.

(** [copyWith], spelled out: it always returns, and the copy it builds at a
    new address is this context. *)
Lemma copyWith_unfold this ns uuid updatedCollator w p :
  w_ctxs w !! this = Some p ->
  let collator := (copy_collator p updatedCollator w).1 in
  let w0 := (copy_collator p updatedCollator w).2 in
  let expCtx := fresh (dom (w_ctxs w)) in
  ExpressionContext.copyWith this ns uuid updatedCollator w
  = (Ok expCtx,
     set_ctxs
       (<[expCtx :=
            mkExpressionContext (explain p) (fromMongos p) (needsMerge p) (inMongos p)
              (allowDiskUse p) (bypassDocumentValidation p) ns uuid (tempDir p)
              (opCtx p) (mongoProcessInterface p) (variables p)
              (VariablesParseState.copyWith (Variables.useIdGenerator expCtx)
                 (variablesParseState p))
              (maxFeatureCompatibilityVersion p) (subPipelineDepth p) (mayDbProfile p)
              (jsHeapLimitMB p) collator (mkDocumentComparator (collator_get collator))
              (mkValueComparator (collator_get collator))
              (_resolvedNamespaces p) kInterruptCheckPeriod]>
          (w_ctxs w)) w0).
Proof.
  intros Hp collator w0 expCtx.
  unfold ExpressionContext.copyWith.
  unfold mbind at 1. unfold M_bind at 1. rewrite (ctx_get_Some _ _ _ Hp).
  assert (Hcoll :
    (match updatedCollator with
     | Some k => mret k
     | None =>
         match _collator p with
         | Some k => c' ← CollatorInterface_clone k; mret (Some c')
         | None => mret None
         end
     end : M World (option CollatorInterface)) w = (Ok collator, w0)).
  { unfold collator, w0, copy_collator. destruct updatedCollator; [done|].
    by destruct (_collator p). }
  unfold mbind at 1. unfold M_bind at 1. rewrite Hcoll.
  unfold mbind at 1. unfold M_bind at 1. unfold get at 1.
  assert (Hdom : w_ctxs w0 = w_ctxs w) by apply copy_collator_ctxs.
  rewrite Hdom. fold expCtx.
  unfold mbind at 1. unfold M_bind at 1. rewrite ctor_plain.
  unfold mbind at 1. unfold M_bind at 1. unfold ctx_get at 1. simpl w_ctxs.
  rewrite lookup_insert_eq.
  unfold mbind at 1. unfold M_bind at 1. unfold ctx_put at 1. simpl.
  rewrite insert_insert_eq, Hdom. reflexivity.
Qed.

End Copy.

Section CopyProperties.
Context `{Externals}.
Context (w : World) (this : addr) (p : ExpressionContext).
Context (ns : NamespaceString) (uuid : option UUID).
Context (updatedCollator : option (option CollatorInterface)).
Context (Hctx : w_ctxs w !! this = Some p).



(** C10. For every expression context whose runtime constants are set,
    [copyWith] adds one new context, at an address that was free, and leaves
    the parent as it was.  The new context is the one the constructor built,
    whose [Variables] were new and held constants synthesized from the clock,
    with the members [copyWith] assigns afterwards; by the assignment of the
    parent's [variables] its whole [Variables] state - the id generator, all
    value bindings, the let-parameter map and the runtime-constants record
    with its local time, cluster time, script scope and map-reduce flag -
    equals the parent's at the call, and the synthesized constants are
    gone. *)
Theorem copyWith_copies_variables (rc : RuntimeConstants)
    (Hset : _runtimeConstants (variables p) = Some rc) :
  exists child w' c c0 w1,
    ExpressionContext.copyWith this ns uuid updatedCollator w = (Ok child, w') /\
    (child ∉ dom (w_ctxs w)) /\
    child <> this /\
    w_ctxs w' = <[child := c]> (w_ctxs w) /\
    w_ctxs w' !! this = Some p /\
    w_ctxs w' !! child = Some c /\
    ExpressionContext.ctor child (opCtx p) (explain p) (fromMongos p) (needsMerge p)
      (allowDiskUse p) (bypassDocumentValidation p) false ns None
      (copy_collator p updatedCollator w).1 (mongoProcessInterface p)
      (_resolvedNamespaces p) uuid (mayDbProfile p) None
      (copy_collator p updatedCollator w).2 = (Ok tt, w1) /\
    w_ctxs w1 !! child = Some c0 /\
    variables c0
    = set_runtimeConstants (Some (generateRuntimeConstants (opCtx p))) Variables.init /\
    c = set_variablesParseState
          (VariablesParseState.copyWith (Variables.useIdGenerator child)
             (variablesParseState p))
          (set_variables (variables p)
             (set_jsHeapLimitMB (jsHeapLimitMB p)
                (set_copied_members (inMongos p) (maxFeatureCompatibilityVersion p)
                   (subPipelineDepth p) (tempDir p) c0))) /\
    variables c = variables p /\
    _runtimeConstants (variables c) = Some rc /\
    Variables.getRuntimeConstants (variables c) = Ok rc /\
    (forall id root,
       Variables.getValue id root (variables c) = Variables.getValue id root (variables p)) /\
    (forall id, Variables.hasValue id (variables c) = Variables.hasValue id (variables p)).
Proof.
  pose proof (copyWith_unfold this ns uuid updatedCollator w p Hctx) as Hcopy.
  cbv zeta in Hcopy.
  assert (Hfree : fresh (dom (w_ctxs w)) ∉ dom (w_ctxs w)) by apply is_fresh.
  assert (Hfresh : fresh (dom (w_ctxs w)) <> this).
  { intros Heq. apply Hfree. rewrite Heq. apply elem_of_dom. by exists p. }
  eexists _, _, _, _, _. split; [exact Hcopy|].
  split; [exact Hfree|]. split; [exact Hfresh|].
  split; [reflexivity|].
  simpl. rewrite lookup_insert_ne by done. rewrite lookup_insert_eq.
  split; [exact Hctx|]. split; [reflexivity|].
  rewrite ctor_plain. split; [reflexivity|].
  simpl. rewrite lookup_insert_eq. split; [reflexivity|].
  split; [reflexivity|]. split; [reflexivity|]. split; [reflexivity|].
  split; [exact Hset|].
  split; [unfold Variables.getRuntimeConstants; by rewrite Hset|].
  split; [done|]. done.
Qed.

End CopyProperties.

(** ** The properties on the example world *)

Lemma exampleWorld_context : w_ctxs exampleWorld !! 1%positive = Some exampleContext.
Proof. by vm_compute. Qed.

Lemma exampleWorld_opCtx :
  w_opCtxs exampleWorld !! 1%positive = Some (mkOperationContext false 0).
Proof. by vm_compute. Qed.

Lemma checkForInterrupt_once_per_period_witness :
  exists w' c',
    repeatM 300 (ExpressionContext.checkForInterrupt (H := exampleExternals) 1%positive)
      exampleWorld = (Ok tt, w') /\
    w_opCtxs w' !! 1%positive = Some (mkOperationContext false 2) /\
    w_ctxs w' !! 1%positive = Some c' /\
    _interruptCounter c' = 84.
Proof.
  assert (Hperiod : 0 < 128 <= INT_MAX) by (unfold INT_MAX; lia).
  exact (proj1 (checkForInterrupt_once_per_period (H := exampleExternals)
                  exampleWorld 1%positive 1%positive exampleContext
                  (mkOperationContext false 0) Hperiod exampleWorld_context eq_refl
                  exampleWorld_opCtx eq_refl eq_refl) 300%nat).
Defined.

Lemma collator_stash_restores_original_witness :
  exists stash w1,
    ExpressionContext.temporarilyChangeCollator 1%positive
      (Some (mkCollator 11%positive "de")) exampleWorld = (Ok stash, w1) /\
    (exists c1, w_ctxs w1 !! 1%positive = Some c1 /\
                _collator c1 = Some (mkCollator 11%positive "de")) /\
    (exists w3 c3,
       ExpressionContext.CollatorStash.dtor stash w1 = (Ok tt, w3) /\
       w_ctxs w3 !! 1%positive = Some c3 /\
       _collator c3 = Some (mkCollator 10%positive "fr") /\
       _documentComparator c3 = mkDocumentComparator (Some 10%positive) /\
       _valueComparator c3 = mkValueComparator (Some 10%positive)).
Proof.
  destruct (collator_stash_restores_original exampleWorld 1%positive exampleContext
              (Some (mkCollator 11%positive "de")) exampleWorld_context)
    as (stash & w1 & Hacq & (c1 & Hc1 & Hk) & Hrel & _).
  exists stash, w1. split; [exact Hacq|]. split; [by exists c1|].
  destruct (Hrel w1 c1 Hc1) as (w3 & c3 & Hd & Hc3 & Hcoll & _ & Hdc & Hvc).
  by exists w3, c3.
Defined.



Lemma copyWith_copies_variables_witness :
  generateRuntimeConstants (Externals := exampleExternals) (Some 1%positive)
    <> exampleConstants /\
  exists child w' c,
    ExpressionContext.copyWith (H := exampleExternals) 1%positive "db.other" None None
      exampleWorld = (Ok child, w') /\
    child <> 1%positive /\
    w_ctxs w' = <[child := c]> (w_ctxs exampleWorld) /\
    variables c = variables exampleContext /\
    Variables.getRuntimeConstants (variables c) = Ok exampleConstants.
Proof.
  split; [discriminate|].
  destruct (copyWith_copies_variables (H := exampleExternals) exampleWorld
              1%positive exampleContext "db.other" None None exampleWorld_context
              exampleConstants eq_refl)
    as (child & w' & c & c0 & w1 & Hcopy & _ & Hne & Hw' & _ & _ & _ & _ & _ & _
        & Hvars & _ & Hrc & _).
  exists child, w', c. split; [exact Hcopy|]. split; [exact Hne|]. split; [exact Hw'|].
  split; [exact Hvars | exact Hrc].
Defined.

(** ** Sub-pipeline contexts: isolation of the copied scope *)

(** A definition in the parse state of a context that draws its ids from its
    own generator succeeds, keeps that arrangement, and changes no other
    context. *)
Lemma ctx_defineVariable_frame a name w :
  own_generator a w ->
  is_Ok (ExpressionContext.defineVariable a name w).1 = true /\
  own_generator a (ExpressionContext.defineVariable a name w).2 /\
  (forall b, b <> a ->
     w_ctxs (ExpressionContext.defineVariable a name w).2 !! b = w_ctxs w !! b).
Proof.
  intros (c & Hc & Hgen).
  assert (Hrun : exists id c',
            ExpressionContext.defineVariable a name w
            = (Ok id,
               set_ctxs (<[a := c']>
                           (alter (fun c0 =>
                                     set_variables
                                       (set_idGenerator
                                          (IdGenerator.mk
                                             (wrap64 (IdGenerator._nextId
                                                        (_idGenerator (variables c)) + 1)))
                                          (variables c0)) c0) a (w_ctxs w))) w) /\
            vps_idGenerator (variablesParseState c') = GenOfCtx a).
  { unfold ExpressionContext.defineVariable.
    unfold mbind at 1. unfold M_bind at 1. rewrite (ctx_get_Some _ _ _ Hc).
    unfold mbind at 1. unfold M_bind at 1.
    unfold VariablesParseState.defineVariable. rewrite Hgen. simpl gen_load. rewrite Hc.
    simpl. unfold ctx_modify, mbind, M_bind, ctx_get, ctx_put. simpl.
    rewrite lookup_alter_eq, Hc. simpl.
    eexists _, _. split; [reflexivity|]. by destruct c. }
  destruct Hrun as (id & c' & -> & Hgen'). simpl.
  split; [done|]. split.
  - exists c'. simpl. by rewrite lookup_insert_eq.
  - intros b Hb. simpl. rewrite lookup_insert_ne by done. by rewrite lookup_alter_ne.
Qed.

Lemma defineAll_frame a names w :
  own_generator a w ->
  own_generator a (defineAll a names w).2 /\
  (forall b, b <> a -> w_ctxs (defineAll a names w).2 !! b = w_ctxs w !! b).
Proof.
  revert w. induction names as [|name rest IH]; intros w Hown; [done|].
  destruct (ctx_defineVariable_frame a name w Hown) as (HOk & Hown1 & Hframe1).
  simpl. unfold mbind, M_bind.
  destruct (ExpressionContext.defineVariable a name w) as [[id|e] w1]; [|done].
  simpl in *. destruct (IH w1 Hown1) as [Hown2 Hframe2].
  split; [done|]. intros b Hb. by rewrite Hframe2, Hframe1.
Qed.

(** X16. The scope fork of [copyWith], seen on the contexts: the copy is a new
    context whose parse state has the parent's name-to-id entries and draws
    new ids from the copy's own generator; whatever is defined afterwards in
    the copy leaves the parent context exactly as it was, and whatever is
    defined afterwards in the parent leaves the copy exactly as it was. *)
Theorem copyWith_contexts_isolated `{Externals} (w : World) (this : addr)
    (p : ExpressionContext) (ns : NamespaceString) (uuid : option UUID)
    (updatedCollator : option (option CollatorInterface))
    (Hctx : w_ctxs w !! this = Some p)
    (Hown : vps_idGenerator (variablesParseState p) = GenOfCtx this) :
  exists child w' c,
    ExpressionContext.copyWith this ns uuid updatedCollator w = (Ok child, w') /\
    child <> this /\
    w_ctxs w' !! child = Some c /\
    _variables (variablesParseState c) = _variables (variablesParseState p) /\
    vps_idGenerator (variablesParseState c) = GenOfCtx child /\
    (forall names, w_ctxs (defineAll child names w').2 !! this = Some p) /\
    (forall names, w_ctxs (defineAll this names w').2 !! child = Some c).
Proof.
  pose proof (copyWith_unfold this ns uuid updatedCollator w p Hctx) as Hcopy.
  cbv zeta in Hcopy.
  assert (Hfresh : fresh (dom (w_ctxs w)) <> this).
  { intros Heq. apply (is_fresh (dom (w_ctxs w))). rewrite Heq.
    apply elem_of_dom. by exists p. }
  eexists _, _, _. split; [exact Hcopy|]. split; [exact Hfresh|].
  match goal with |- w_ctxs ?x !! _ = _ /\ _ => set (w' := x) end.
  assert (Hchild : w_ctxs w' !! fresh (dom (w_ctxs w)) = Some
            (mkExpressionContext (explain p) (fromMongos p) (needsMerge p) (inMongos p)
               (allowDiskUse p) (bypassDocumentValidation p) ns uuid (tempDir p)
               (opCtx p) (mongoProcessInterface p) (variables p)
               (VariablesParseState.copyWith
                  (Variables.useIdGenerator (fresh (dom (w_ctxs w))))
                  (variablesParseState p))
               (maxFeatureCompatibilityVersion p) (subPipelineDepth p) (mayDbProfile p)
               (jsHeapLimitMB p) (copy_collator p updatedCollator w).1
               (mkDocumentComparator (collator_get (copy_collator p updatedCollator w).1))
               (mkValueComparator (collator_get (copy_collator p updatedCollator w).1))
               (_resolvedNamespaces p) kInterruptCheckPeriod))
    by (unfold w'; simpl; apply lookup_insert_eq).
  assert (Hparent : w_ctxs w' !! this = Some p)
    by (unfold w'; simpl; by rewrite lookup_insert_ne).
  split; [exact Hchild|]. split; [done|]. split; [done|]. split.
  - intros names.
    destruct (defineAll_frame (fresh (dom (w_ctxs w))) names w') as [_ Hframe].
    + eexists. split; [exact Hchild | done].
    + rewrite Hframe by done. exact Hparent.
  - intros names.
    destruct (defineAll_frame this names w') as [_ Hframe].
    + by exists p.
    + rewrite Hframe by done. exact Hchild.
Qed.

Lemma copyWith_contexts_isolated_witness :
  exists child w' c,
    ExpressionContext.copyWith (H := exampleExternals) 1%positive "db.other" None None
      exampleWorld = (Ok child, w') /\
    child <> 1%positive /\
    w_ctxs w' !! child = Some c /\
    w_ctxs (defineAll child ["x"; "y"] w').2 !! 1%positive = Some exampleContext /\
    w_ctxs (defineAll 1%positive ["x"; "y"] w').2 !! child = Some c.
Proof.
  destruct (copyWith_contexts_isolated (H := exampleExternals) exampleWorld 1%positive
              exampleContext "db.other" None None exampleWorld_context eq_refl)
    as (child & w' & c & Hcopy & Hne & Hc & _ & _ & Hp & Hch).
  exists child, w', c. split; [exact Hcopy|]. split; [exact Hne|]. split; [exact Hc|].
  split; [apply Hp | apply Hch].
Defined.

(** * Part III: further properties of the two files *)

(** ** The id generator, from any state *)

Lemma generateIds_app n m g :
  IdGenerator.generateIds (n + m) g
  = ((IdGenerator.generateIds n g).1
       ++ (IdGenerator.generateIds m (IdGenerator.generateIds n g).2).1,
     (IdGenerator.generateIds m (IdGenerator.generateIds n g).2).2).
Proof.
  revert g. induction n as [|n IH]; intros g; simpl.
  - by destruct (IdGenerator.generateIds m g).
  - rewrite IH.
    destruct (IdGenerator.generateIds n _) as [ids1 g1]. simpl.
    by destruct (IdGenerator.generateIds m g1).
Qed.

Lemma generateIds_counter n g :
  0 <= IdGenerator._nextId g ->
  IdGenerator._nextId g + Z.of_nat n < 2 ^ 63 ->
  IdGenerator._nextId (IdGenerator.generateIds n g).2 = IdGenerator._nextId g + Z.of_nat n.
Proof.
  revert g. induction n as [|n IH]; intros g Hlo Hhi; simpl; [lia|].
  pose proof (IH (IdGenerator.mk (wrap64 (IdGenerator._nextId g + 1)))) as IH'.
  destruct (IdGenerator.generateIds n _) as [ids g2]. simpl in *.
  rewrite wrap64_small in IH' by lia. rewrite IH' by lia. lia.
Qed.

(** X1. A generator that stands at any counter [k >= 0] (a fresh one, or one
    copied by value together with its [Variables]) hands out, in [n] calls that
    stay within [int64_t], exactly the ids [k, k+1, ..., k+n-1]: they are
    pairwise distinct and none is below [k], the counter then stands at
    [k + n], and a run of [n + m] calls is a run of [n] calls followed by a run
    of [m] calls on the generator the first run left. *)
Theorem generateIds_consecutive (g : IdGenerator.t) (n : nat)
    (Hlo : 0 <= IdGenerator._nextId g)
    (Hhi : IdGenerator._nextId g + Z.of_nat n < 2 ^ 63) :
  (IdGenerator.generateIds n g).1
    = map (fun i => IdGenerator._nextId g + Z.of_nat i) (seq 0 n) /\
  NoDup (IdGenerator.generateIds n g).1 /\
  (forall x, x ∈ (IdGenerator.generateIds n g).1 -> IdGenerator._nextId g <= x) /\
  IdGenerator._nextId (IdGenerator.generateIds n g).2 = IdGenerator._nextId g + Z.of_nat n /\
  (forall m,
     IdGenerator.generateIds (n + m) g
     = ((IdGenerator.generateIds n g).1
          ++ (IdGenerator.generateIds m (IdGenerator.generateIds n g).2).1,
        (IdGenerator.generateIds m (IdGenerator.generateIds n g).2).2)).
Proof.
  assert (Hids : (IdGenerator.generateIds n g).1
                 = map (fun i => IdGenerator._nextId g + Z.of_nat i) (seq 0 n)).
  { apply list_eq. intros i.
    destruct (decide (i < n)%nat) as [Hi|Hi].
    - rewrite generateIds_lookup by lia.
      rewrite list_lookup_fmap, lookup_seq_lt by done. done.
    - rewrite !lookup_ge_None_2; [done| |].
      + rewrite length_map, length_seq. lia.
      + rewrite generateIds_length. lia. }
  split; [exact Hids|]. split; [|split; [|split]].
  - rewrite Hids. apply NoDup_fmap_2; [|apply NoDup_seq].
    intros i j Hij. lia.
  - intros x Hx. rewrite Hids in Hx. apply list_elem_of_fmap in Hx as (i & -> & _). lia.
  - by apply generateIds_counter.
  - intros m. apply generateIds_app.
Qed.

Lemma generateIds_consecutive_witness :
  (IdGenerator.generateIds 3 (IdGenerator.mk 5)).1 = [5; 6; 7] /\
  NoDup (IdGenerator.generateIds 3 (IdGenerator.mk 5)).1 /\
  IdGenerator._nextId (IdGenerator.generateIds 3 (IdGenerator.mk 5)).2 = 8.
Proof.
  assert (Hlo : 0 <= IdGenerator._nextId (IdGenerator.mk 5)) by (simpl; lia).
  assert (Hhi : IdGenerator._nextId (IdGenerator.mk 5) + Z.of_nat 3 < 2 ^ 63)
    by (simpl; lia).
  destruct (generateIds_consecutive (IdGenerator.mk 5) 3 Hlo Hhi)
    as (Hids & Hnd & _ & Hcnt & _).
  split; [reflexivity|]. split; [exact Hnd | exact Hcnt].
Defined.

(** ** The names of builtin variables *)

Lemma getBuiltinVariableName_absent table id :
  id ∉ table.*2 -> getBuiltinVariableName table id = EmptyString.
Proof.
  induction table as [|[name i] rest IH]; simpl; [done|].
  intros Hid. apply not_elem_of_cons in Hid as [Hne Hrest].
  destruct (id =? i) eqn:E; [apply Z.eqb_eq in E; done|]. by apply IH.
Qed.

Lemma getBuiltinVariableName_present table name id :
  NoDup table.*2 -> (name, id) ∈ table -> getBuiltinVariableName table id = name.
Proof.
  induction table as [|[name' i] rest IH]; simpl; intros Hnd Hin.
  - by apply elem_of_nil in Hin.
  - apply NoDup_cons in Hnd as [Hi Hnd].
    apply elem_of_cons in Hin as [Heq|Hin].
    + injection Heq as -> ->. by rewrite Z.eqb_refl.
    + destruct (id =? i) eqn:E; [|by apply IH].
      apply Z.eqb_eq in E. subst i. exfalso. apply Hi.
      apply list_elem_of_fmap. by exists (name, id).
Qed.

(** X2. [getBuiltinVariableName] inverts a table whose ids are pairwise
    distinct: for every entry of the table it returns the entry's name, for an
    id that is in no entry it returns the empty string, and its result does not
    depend on the order in which the map is iterated. *)
Theorem getBuiltinVariableName_inverts_table (table : list (string * Id))
    (Hdistinct : NoDup table.*2) :
  (forall name id, (name, id) ∈ table -> getBuiltinVariableName table id = name) /\
  (forall id, id ∉ table.*2 -> getBuiltinVariableName table id = EmptyString) /\
  (forall table' id,
     table' ≡ₚ table -> getBuiltinVariableName table' id = getBuiltinVariableName table id).
Proof.
  split; [|split].
  - intros name id. by apply getBuiltinVariableName_present.
  - apply getBuiltinVariableName_absent.
  - intros table' id Hperm.
    assert (Hnd' : NoDup table'.*2) by (by rewrite Hperm).
    destruct (decide (id ∈ table.*2)) as [Hin|Hout].
    + apply list_elem_of_fmap in Hin as ([name i] & Hid & Hin). simpl in Hid. subst i.
      rewrite (getBuiltinVariableName_present table name id) by done.
      apply getBuiltinVariableName_present; [done|]. by rewrite Hperm.
    + rewrite (getBuiltinVariableName_absent table) by done.
      apply getBuiltinVariableName_absent. by rewrite Hperm.
Qed.

Lemma getBuiltinVariableName_inverts_table_witness :
  getBuiltinVariableName exampleBuiltinNames Variables.kClusterTimeId = "CLUSTER_TIME" /\
  getBuiltinVariableName exampleBuiltinNames 0 = EmptyString /\
  getBuiltinVariableName (reverse exampleBuiltinNames) Variables.kNowId
    = getBuiltinVariableName exampleBuiltinNames Variables.kNowId.
Proof.
  assert (Hnd : NoDup exampleBuiltinNames.*2)
    by (refine (bool_decide_unpack (NoDup _) _); vm_compute; exact I).
  destruct (getBuiltinVariableName_inverts_table exampleBuiltinNames Hnd)
    as (Hin & Hout & Hperm).
  split; [reflexivity|]. split; [reflexivity|].
  apply Hperm. apply reverse_Permutation.
Defined.

(** ** The interrupt check: when the countdown runs out *)

Lemma repeatM_snoc {S} (n : nat) (m : M S unit) (s : S) :
  repeatM (Datatypes.S n) m s
  = match repeatM n m s with
    | (Ok _, s1) => m s1
    | (Err e, s1) => (Err e, s1)
    end.
Proof.
  revert s. induction n as [|n IH]; intros s.
  - simpl. unfold mbind, M_bind. by destruct (m s) as [[[]|e] s1].
  - change (repeatM (Datatypes.S (Datatypes.S n)) m s)
      with ((_ ← m; repeatM (Datatypes.S n) m) s).
    change (repeatM (Datatypes.S n) m s) with ((_ ← m; repeatM n m) s).
    unfold mbind, M_bind. destruct (m s) as [[[]|e] s1]; [|done]. apply IH.
Qed.

Lemma set_interruptCounter_twice a b c :
  set_interruptCounter a (set_interruptCounter b c) = set_interruptCounter a c.
Proof. by destruct c. Qed.

Lemma set_interruptCounter_same c : set_interruptCounter (_interruptCounter c) c = c.
Proof. by destruct c. Qed.

Section Countdown.
Context `{Externals}.

(** A call on one context changes no other context. *)
Lemma checkForInterrupt_other this b w :
  b <> this ->
  w_ctxs (ExpressionContext.checkForInterrupt this w).2 !! b = w_ctxs w !! b.
Proof.
  intros Hb. destruct (w_ctxs w !! this) as [c|] eqn:Hc.
  - rewrite (checkForInterrupt_unfold _ _ _ Hc). cbv zeta.
    destruct (wrap32 (_interruptCounter c - 1) =? 0).
    + destruct (opCtx c) as [oc|]; simpl; [|by rewrite lookup_insert_ne].
      unfold OperationContext_checkForInterrupt. simpl.
      destruct (w_opCtxs w !! oc) as [o|]; simpl.
      * destruct (interruptPending o); simpl; by rewrite lookup_insert_ne.
      * by rewrite lookup_insert_ne.
    + simpl. by rewrite lookup_insert_ne.
  - unfold ExpressionContext.checkForInterrupt, mbind, M_bind.
    by rewrite (ctx_get_None _ _ Hc).
Qed.

Lemma checkForInterrupt_run_other this b (n : nat) w :
  b <> this ->
  w_ctxs (repeatM n (ExpressionContext.checkForInterrupt this) w).2 !! b = w_ctxs w !! b.
Proof.
  intros Hb. revert w. induction n as [|n IH]; intros w; [done|].
  simpl. unfold mbind, M_bind.
  pose proof (checkForInterrupt_other this b w Hb) as Hstep.
  destruct (ExpressionContext.checkForInterrupt this w) as [[[]|e] w1]; simpl in *.
  - by rewrite IH.
  - done.
Qed.

(** While the countdown stays above zero the calls return and change only the
    countdown. *)
Lemma checkForInterrupt_quiet this (j : nat) w c :
  w_ctxs w !! this = Some c ->
  Z.of_nat j < _interruptCounter c <= INT_MAX ->
  exists w',
    repeatM j (ExpressionContext.checkForInterrupt this) w = (Ok tt, w') /\
    w_ctxs w' = <[this := set_interruptCounter (_interruptCounter c - Z.of_nat j) c]>
                  (w_ctxs w) /\
    w_opCtxs w' = w_opCtxs w /\ w_gens w' = w_gens w /\ w_nextObject w' = w_nextObject w.
Proof.
  revert w c. induction j as [|j IH]; intros w c Hc [Hlo Hhi].
  - exists w. split; [done|]. split; [|done].
    rewrite Z.sub_0_r, set_interruptCounter_same. by rewrite insert_id.
  - unfold INT_MAX in Hhi.
    simpl. unfold mbind, M_bind.
    rewrite (checkForInterrupt_unfold _ _ _ Hc). cbv zeta.
    rewrite wrap32_small by lia.
    destruct (_interruptCounter c - 1 =? 0) eqn:E; [apply Z.eqb_eq in E; lia|].
    edestruct (IH (set_ctxs (<[this := set_interruptCounter (_interruptCounter c - 1) c]>
                               (w_ctxs w)) w)
                 (set_interruptCounter (_interruptCounter c - 1) c))
      as (w' & Hrun & Hctxs & Hoc & Hg & Hn).
    + simpl. apply lookup_insert_eq.
    + unfold INT_MAX. destruct c; simpl in *. lia.
    + exists w'. split; [exact Hrun|]. split; [|done].
      rewrite Hctxs. simpl. rewrite insert_insert_eq, set_interruptCounter_twice.
      do 2 f_equal. destruct c; simpl. lia.
Qed.

(** X3. With an interruption pending on the operation context, and the
    countdown at [j + 1], the first [j] calls of [checkForInterrupt()] return
    normally and invoke no check; the next call invokes the check once and
    throws the interruption, and the countdown it leaves is the period: the
    interruption is detected exactly when the countdown runs out, and the
    following check is a full period away. *)
Theorem checkForInterrupt_throws_when_countdown_ends (w : World) (this oc : addr)
    (c : ExpressionContext) (o : OperationContext) (j : nat)
    (Hctx : w_ctxs w !! this = Some c)
    (HopCtx : opCtx c = Some oc)
    (Ho : w_opCtxs w !! oc = Some o)
    (Hpending : interruptPending o = true)
    (Hcount : _interruptCounter c = Z.of_nat (S j))
    (Hmax : Z.of_nat (S j) <= INT_MAX) :
  exists w1 w2,
    repeatM j (ExpressionContext.checkForInterrupt this) w = (Ok tt, w1) /\
    w_opCtxs w1 = w_opCtxs w /\
    ExpressionContext.checkForInterrupt this w1 = (Err Interrupted, w2) /\
    repeatM (S j) (ExpressionContext.checkForInterrupt this) w = (Err Interrupted, w2) /\
    w_opCtxs w2 !! oc = Some (mkOperationContext true (interruptChecks o + 1)) /\
    w_ctxs w2 !! this = Some (set_interruptCounter kInterruptCheckPeriod c).
Proof.
  destruct (checkForInterrupt_quiet this j w c Hctx ltac:(lia))
    as (w1 & Hrun & Hctxs & Hoc & _).
  assert (Hc1 : w_ctxs w1 !! this = Some (set_interruptCounter 1 c)).
  { rewrite Hctxs, lookup_insert_eq. do 2 f_equal. lia. }
  assert (Hcall : exists w2,
            ExpressionContext.checkForInterrupt this w1 = (Err Interrupted, w2) /\
            w_opCtxs w2 !! oc = Some (mkOperationContext true (interruptChecks o + 1)) /\
            w_ctxs w2 !! this = Some (set_interruptCounter kInterruptCheckPeriod c)).
  { rewrite (checkForInterrupt_unfold _ _ _ Hc1). cbv zeta.
    replace (_interruptCounter (set_interruptCounter 1 c) - 1) with 0
      by (destruct c; simpl; lia).
    change (wrap32 0 =? 0) with true. cbv iota.
    replace (opCtx (set_interruptCounter 1 c)) with (Some oc) by (by destruct c).
    unfold OperationContext_checkForInterrupt. simpl. rewrite Hoc, Ho, Hpending.
    eexists. split; [reflexivity|]. simpl. rewrite !lookup_insert_eq.
    split; [by destruct o; simpl in *; subst|].
    by rewrite set_interruptCounter_twice. }
  destruct Hcall as (w2 & Hcall & Ho2 & Hc2).
  exists w1, w2. split; [exact Hrun|]. split; [exact Hoc|]. split; [exact Hcall|].
  split; [|done]. by rewrite repeatM_snoc, Hrun.
Qed.

(** X4. On a context without operation context ([opCtx] null) and with the
    countdown at [j + 1], the first [j] calls return normally; the next call
    fails the invariant.  No check is ever invoked. *)
Theorem checkForInterrupt_without_opCtx (w : World) (this : addr)
    (c : ExpressionContext) (j : nat)
    (Hctx : w_ctxs w !! this = Some c)
    (HopCtx : opCtx c = None)
    (Hcount : _interruptCounter c = Z.of_nat (S j))
    (Hmax : Z.of_nat (S j) <= INT_MAX) :
  exists w1 w2,
    repeatM j (ExpressionContext.checkForInterrupt this) w = (Ok tt, w1) /\
    ExpressionContext.checkForInterrupt this w1 = (Err InvariantFailure, w2) /\
    repeatM (S j) (ExpressionContext.checkForInterrupt this) w = (Err InvariantFailure, w2) /\
    w_opCtxs w2 = w_opCtxs w.
Proof.
  destruct (checkForInterrupt_quiet this j w c Hctx ltac:(lia))
    as (w1 & Hrun & Hctxs & Hoc & _).
  assert (Hc1 : w_ctxs w1 !! this = Some (set_interruptCounter 1 c)).
  { rewrite Hctxs, lookup_insert_eq. do 2 f_equal. lia. }
  assert (Hcall : exists w2,
            ExpressionContext.checkForInterrupt this w1 = (Err InvariantFailure, w2) /\
            w_opCtxs w2 = w_opCtxs w).
  { rewrite (checkForInterrupt_unfold _ _ _ Hc1). cbv zeta.
    replace (_interruptCounter (set_interruptCounter 1 c) - 1) with 0
      by (destruct c; simpl; lia).
    change (wrap32 0 =? 0) with true. cbv iota.
    replace (opCtx (set_interruptCounter 1 c)) with (@None addr)
      by (destruct c; simpl in *; by subst).
    eexists. split; [reflexivity|]. done. }
  destruct Hcall as (w2 & Hcall & Ho2).
  exists w1, w2. split; [exact Hrun|]. split; [exact Hcall|].
  split; [|done]. by rewrite repeatM_snoc, Hrun.
Qed.

(** X5. The countdown of a copy made by [copyWith] starts at the period,
    whatever the countdown of the parent is: with no interruption pending,
    any [n] calls of [checkForInterrupt()] on the copy invoke the check
    [n / period] times, and they leave the parent, its countdown included, as
    it was. *)
Theorem copyWith_restarts_countdown (w : World) (this oc : addr)
    (p : ExpressionContext) (o : OperationContext) (ns : NamespaceString)
    (uuid : option UUID) (updatedCollator : option (option CollatorInterface))
    (Hperiod : 0 < kInterruptCheckPeriod <= INT_MAX)
    (Hctx : w_ctxs w !! this = Some p)
    (HopCtx : opCtx p = Some oc)
    (Ho : w_opCtxs w !! oc = Some o)
    (Hpending : interruptPending o = false) :
  exists child w',
    ExpressionContext.copyWith this ns uuid updatedCollator w = (Ok child, w') /\
    (exists c, w_ctxs w' !! child = Some c /\ _interruptCounter c = kInterruptCheckPeriod) /\
    (forall n : nat,
       exists w'' c'',
         repeatM n (ExpressionContext.checkForInterrupt child) w' = (Ok tt, w'') /\
         w_opCtxs w'' !! oc
           = Some (mkOperationContext false
                     (interruptChecks o + Z.of_nat n / kInterruptCheckPeriod)) /\
         w_ctxs w'' !! child = Some c'' /\
         _interruptCounter c''
           = kInterruptCheckPeriod - Z.of_nat n mod kInterruptCheckPeriod /\
         w_ctxs w'' !! this = Some p).
Proof.
  pose proof (copyWith_unfold this ns uuid updatedCollator w p Hctx) as Hcopy.
  cbv zeta in Hcopy.
  assert (Hfresh : fresh (dom (w_ctxs w)) <> this).
  { intros Heq. apply (is_fresh (dom (w_ctxs w))). rewrite Heq.
    apply elem_of_dom. by exists p. }
  destruct Hperiod as [Hpos Hmax].
  eexists _, _. split; [exact Hcopy|].
  match goal with |- (exists c, w_ctxs ?x !! _ = _ /\ _) /\ _ => set (w' := x) end.
  assert (Hoc' : w_opCtxs w' = w_opCtxs w).
  { unfold w', copy_collator. simpl. destruct updatedCollator; [done|].
    by destruct (_collator p). }
  assert (Hparent : w_ctxs w' !! this = Some p)
    by (unfold w'; simpl; by rewrite lookup_insert_ne).
  split.
  - eexists. unfold w'. simpl. rewrite lookup_insert_eq. by split.
  - intros n.
    assert (Hst : after_calls (fresh (dom (w_ctxs w))) oc (interruptChecks o) 0 w').
    { split.
      - eexists. unfold w'. simpl. rewrite lookup_insert_eq. split; [reflexivity|].
        simpl. split; [done|]. rewrite Z.mod_0_l by lia. lia.
      - rewrite Z.div_0_l by lia. rewrite Hoc', Ho. destruct o; simpl in *. subst.
        do 2 f_equal. lia. }
    destruct (checkForInterrupt_run (fresh (dom (w_ctxs w))) oc _ n 0 w'
                (conj Hpos Hmax) ltac:(lia) Hst)
      as (w'' & Hrun & (c'' & Hc'' & _ & Hcnt) & Ho'').
    exists w'', c''. rewrite Z.add_0_l in *.
    split; [exact Hrun|]. split; [exact Ho''|]. split; [exact Hc''|]. split; [exact Hcnt|].
    pose proof (checkForInterrupt_run_other (fresh (dom (w_ctxs w))) this n w'
                  ltac:(done)) as Hother.
    rewrite Hrun in Hother. simpl in Hother. by rewrite Hother.
Qed.

End Countdown.

Lemma examplePendingWorld_context :
  w_ctxs examplePendingWorld !! 1%positive = Some exampleContext.
Proof. by vm_compute. Qed.

Lemma exampleStubWorld_context :
  w_ctxs exampleStubWorld !! 1%positive = Some exampleStubContext.
Proof. by vm_compute. Qed.

Lemma checkForInterrupt_throws_when_countdown_ends_witness :
  exists w1 w2,
    repeatM 127 (ExpressionContext.checkForInterrupt (H := exampleExternals) 1%positive)
      examplePendingWorld = (Ok tt, w1) /\
    w_opCtxs w1 = w_opCtxs examplePendingWorld /\
    ExpressionContext.checkForInterrupt (H := exampleExternals) 1%positive w1
      = (Err Interrupted, w2) /\
    w_opCtxs w2 !! 1%positive = Some (mkOperationContext true 1).
Proof.
  assert (Hmax : Z.of_nat 128 <= INT_MAX) by (unfold INT_MAX; lia).
  destruct (checkForInterrupt_throws_when_countdown_ends (H := exampleExternals)
              examplePendingWorld 1%positive 1%positive exampleContext
              (mkOperationContext true 0) 127 examplePendingWorld_context eq_refl eq_refl
              eq_refl eq_refl Hmax)
    as (w1 & w2 & Hrun & Hoc & Hcall & _ & Ho2 & _).
  exists w1, w2. split; [exact Hrun|]. split; [exact Hoc|]. split; [exact Hcall|].
  exact Ho2.
Defined.

Lemma checkForInterrupt_without_opCtx_witness :
  exists w1 w2,
    repeatM 127 (ExpressionContext.checkForInterrupt (H := exampleExternals) 1%positive)
      exampleStubWorld = (Ok tt, w1) /\
    ExpressionContext.checkForInterrupt (H := exampleExternals) 1%positive w1
      = (Err InvariantFailure, w2).
Proof.
  assert (Hmax : Z.of_nat 128 <= INT_MAX) by (unfold INT_MAX; lia).
  destruct (checkForInterrupt_without_opCtx (H := exampleExternals)
              exampleStubWorld 1%positive exampleStubContext 127
              exampleStubWorld_context eq_refl eq_refl Hmax)
    as (w1 & w2 & Hrun & Hcall & _).
  exists w1, w2. split; [exact Hrun | exact Hcall].
Defined.

Lemma copyWith_restarts_countdown_witness :
  exists child w',
    ExpressionContext.copyWith (H := exampleExternals) 1%positive "db.other" None None
      exampleWorld = (Ok child, w') /\
    exists w'' c'',
      repeatM 300 (ExpressionContext.checkForInterrupt (H := exampleExternals) child) w'
        = (Ok tt, w'') /\
      w_opCtxs w'' !! 1%positive = Some (mkOperationContext false 2) /\
      w_ctxs w'' !! child = Some c'' /\ _interruptCounter c'' = 84 /\
      w_ctxs w'' !! 1%positive = Some exampleContext.
Proof.
  assert (Hperiod : 0 < 128 <= INT_MAX) by (unfold INT_MAX; lia).
  destruct (copyWith_restarts_countdown (H := exampleExternals) exampleWorld 1%positive
              1%positive exampleContext (mkOperationContext false 0) "db.other" None None
              Hperiod exampleWorld_context eq_refl exampleWorld_opCtx eq_refl)
    as (child & w' & Hcopy & _ & Hcalls).
  exists child, w'. split; [exact Hcopy|]. exact (Hcalls 300%nat).
Defined.

(** ** The constructors *)

Section Constructors.
Context `{Externals}.

(** The constructor taking the execution flags, called without let
    parameters, always returns, and builds this context. *)
Lemma ctor_no_let this opCtx explain fromMongos needsMerge allowDiskUse
    bypassDocumentValidation isMapReduce ns runtimeConstants collator
    mongoProcessInterface resolvedNamespaces collUUID mayDbProfile w :
  ExpressionContext.ctor this opCtx explain fromMongos needsMerge allowDiskUse
    bypassDocumentValidation isMapReduce ns runtimeConstants collator
    mongoProcessInterface resolvedNamespaces collUUID mayDbProfile None w
  = (Ok tt,
     set_ctxs
       (<[this :=
            mkExpressionContext explain fromMongos needsMerge false allowDiskUse
              bypassDocumentValidation ns collUUID "" opCtx mongoProcessInterface
              (set_runtimeConstants (Some (resolved_constants opCtx runtimeConstants))
                 Variables.init)
              (VariablesParseState.ctor (Variables.useIdGenerator this))
              None 0 mayDbProfile
              (if isMapReduce then None
               else Some internalQueryJavaScriptHeapSizeLimitMB)
              collator (mkDocumentComparator (collator_get collator))
              (mkValueComparator (collator_get collator))
              resolvedNamespaces kInterruptCheckPeriod]>
          (w_ctxs w)) w).
Proof.
  pose proof (resolveRuntimeConstants_init opCtx runtimeConstants) as Hres.
  fold (resolved_constants opCtx runtimeConstants) in Hres.
  unfold ExpressionContext.ctor.
  unfold mbind at 1. unfold M_bind at 1. unfold ctx_put at 1.
  unfold mbind at 1. unfold M_bind at 1.
  unfold ExpressionContext.on_variables at 1.
  unfold mbind at 1. unfold M_bind at 1. unfold ctx_get at 1. simpl w_ctxs.
  rewrite lookup_insert_eq. cbn [variables]. rewrite Hres.
  unfold mbind at 1. unfold M_bind at 1. unfold ctx_put at 1.
  simpl w_ctxs. rewrite insert_insert_eq.
  unfold ctx_modify, mbind, M_bind, ctx_get, ctx_put.
  destruct isMapReduce; simpl; [done|].
  rewrite lookup_insert_eq. simpl. by rewrite insert_insert_eq.
Qed.

(** The constructor taking an aggregation request always returns, and builds
    this context. *)
Lemma ctorFromRequest_unfold this opCtx request collator processInterface
    resolvedNamespaces collUUID mayDbProfile w :
  ExpressionContext.ctorFromRequest this opCtx request collator processInterface
    resolvedNamespaces collUUID mayDbProfile w
  = (Ok tt,
     set_ctxs
       (<[this :=
            mkExpressionContext (getExplain request) (isFromMongos request)
              (req_needsMerge request) false (shouldAllowDiskUse request)
              (shouldBypassDocumentValidation request) (getNamespaceString request)
              collUUID "" opCtx processInterface
              (set_runtimeConstants
                 (Some (resolved_constants opCtx (req_getRuntimeConstants request)))
                 Variables.init)
              (VariablesParseState.ctor (Variables.useIdGenerator this))
              None 0 mayDbProfile
              (if getIsMapReduceCommand request then None
               else Some internalQueryJavaScriptHeapSizeLimitMB)
              collator (mkDocumentComparator (collator_get collator))
              (mkValueComparator (collator_get collator))
              resolvedNamespaces kInterruptCheckPeriod]>
          (w_ctxs w)) w).
Proof.
  unfold ExpressionContext.ctorFromRequest.
  unfold mbind at 1. unfold M_bind at 1. rewrite ctor_no_let.
  destruct (getIsMapReduceCommand request); [|done].
  unfold ctx_modify, mbind, M_bind, ctx_get, ctx_put. simpl.
  rewrite lookup_insert_eq. simpl. by rewrite insert_insert_eq.
Qed.

(** The constructor taking only a collator and a namespace always returns,
    and builds this context. *)
Lemma ctorWithStub_unfold this opCtx collator nss runtimeConstants mayDbProfile w :
  ExpressionContext.ctorWithStub this opCtx collator nss runtimeConstants mayDbProfile w
  = (Ok tt,
     set_ctxs
       (<[this :=
            mkExpressionContext None false false false false false nss None "" opCtx
              (Some (w_nextObject w))
              (set_runtimeConstants runtimeConstants Variables.init)
              (VariablesParseState.ctor (Variables.useIdGenerator this))
              None 0 mayDbProfile (Some internalQueryJavaScriptHeapSizeLimitMB)
              collator (mkDocumentComparator (collator_get collator))
              (mkValueComparator (collator_get collator))
              ∅ kInterruptCheckPeriod]>
          (w_ctxs w))
       (mkWorld (w_ctxs w) (w_gens w) (w_opCtxs w) (Pos.succ (w_nextObject w)))).
Proof.
  unfold ExpressionContext.ctorWithStub, ExpressionContext.on_variables,
    Variables.setRuntimeConstants, ctx_modify, mbind, M_bind, ctx_get, ctx_put, get, put.
  destruct runtimeConstants as [rc|]; simpl; rewrite ?lookup_insert_eq; simpl.
  - rewrite lookup_insert_eq. simpl. by rewrite !insert_insert_eq.
  - by rewrite !insert_insert_eq.
Qed.

(** X6. Every constructor, called without let parameters, returns a context
    whose JavaScript heap limit is the server parameter
    [internalQueryJavaScriptHeapSizeLimitMB], except that the limit is unset
    for a context built with the map-reduce flag or from a mapReduce request;
    the constructor taking only a collator and a namespace always sets it. *)
Theorem constructors_set_heap_limit (this : addr) (opCtx : option addr)
    (collator : option CollatorInterface) (w : World) :
  (forall explain fromMongos needsMerge allowDiskUse bypassDocumentValidation isMapReduce
          ns runtimeConstants mongoProcessInterface resolvedNamespaces collUUID mayDbProfile,
     exists w' c,
       ExpressionContext.ctor this opCtx explain fromMongos needsMerge allowDiskUse
         bypassDocumentValidation isMapReduce ns runtimeConstants collator
         mongoProcessInterface resolvedNamespaces collUUID mayDbProfile None w
       = (Ok tt, w') /\
       w_ctxs w' !! this = Some c /\
       jsHeapLimitMB c
       = if isMapReduce then None else Some internalQueryJavaScriptHeapSizeLimitMB) /\
  (forall request processInterface resolvedNamespaces collUUID mayDbProfile,
     exists w' c,
       ExpressionContext.ctorFromRequest this opCtx request collator processInterface
         resolvedNamespaces collUUID mayDbProfile w = (Ok tt, w') /\
       w_ctxs w' !! this = Some c /\
       jsHeapLimitMB c
       = if getIsMapReduceCommand request then None
         else Some internalQueryJavaScriptHeapSizeLimitMB) /\
  (forall nss runtimeConstants mayDbProfile,
     exists w' c,
       ExpressionContext.ctorWithStub this opCtx collator nss runtimeConstants
         mayDbProfile w = (Ok tt, w') /\
       w_ctxs w' !! this = Some c /\
       jsHeapLimitMB c = Some internalQueryJavaScriptHeapSizeLimitMB).
Proof.
  split; [|split].
  - intros. rewrite ctor_no_let. eexists _, _. split; [reflexivity|].
    simpl. rewrite lookup_insert_eq. by split.
  - intros. rewrite ctorFromRequest_unfold. eexists _, _. split; [reflexivity|].
    simpl. rewrite lookup_insert_eq. by split.
  - intros. rewrite ctorWithStub_unfold. eexists _, _. split; [reflexivity|].
    simpl. rewrite lookup_insert_eq. by split.
Qed.

End Constructors.

(** ** An invariant of all expression contexts *)

Lemma all_well_formed_insert a c w w' :
  all_well_formed w -> well_formed a c -> w_ctxs w' = <[a := c]> (w_ctxs w) ->
  all_well_formed w'.
Proof.
  intros Hall Hc Hw' b cb Hb. rewrite Hw' in Hb.
  destruct (decide (a = b)) as [->|Hne].
  - rewrite lookup_insert_eq in Hb. by injection Hb as <-.
  - rewrite lookup_insert_ne in Hb by done. by apply Hall.
Qed.

Lemma all_well_formed_same w w' :
  all_well_formed w -> w_ctxs w' = w_ctxs w -> all_well_formed w'.
Proof. intros Hall Hw' b cb Hb. rewrite Hw' in Hb. by apply Hall. Qed.

Section Invariant.
Context `{Externals}.

Lemma setCollator_well_formed this k w :
  all_well_formed w -> all_well_formed (ExpressionContext.setCollator this k w).2.
Proof.
  intros Hall. destruct (w_ctxs w !! this) as [c|] eqn:Hc.
  - rewrite (setCollator_unfold _ _ _ _ Hc). simpl.
    eapply all_well_formed_insert; [exact Hall| |reflexivity].
    destruct (Hall _ _ Hc) as (_ & _ & Hgen). by destruct c.
  - unfold ExpressionContext.setCollator, mbind, M_bind.
    by rewrite (ctx_get_None _ _ Hc).
Qed.

Lemma temporarilyChangeCollator_well_formed this k w :
  all_well_formed w ->
  all_well_formed (ExpressionContext.temporarilyChangeCollator this k w).2.
Proof.
  intros Hall. destruct (w_ctxs w !! this) as [c|] eqn:Hc.
  - rewrite (temporarilyChangeCollator_unfold _ _ _ _ Hc). simpl.
    eapply all_well_formed_insert; [exact Hall| |reflexivity].
    destruct (Hall _ _ Hc) as (_ & _ & Hgen). by destruct c.
  - unfold ExpressionContext.temporarilyChangeCollator,
      ExpressionContext.CollatorStash.ctor, mbind, M_bind.
    by rewrite (ctx_get_None _ _ Hc).
Qed.

Lemma checkForInterrupt_well_formed this w :
  all_well_formed w -> all_well_formed (ExpressionContext.checkForInterrupt this w).2.
Proof.
  intros Hall. destruct (w_ctxs w !! this) as [c|] eqn:Hc.
  - assert (Hwf : forall n, well_formed this (set_interruptCounter n c)).
    { intros n. destruct (Hall _ _ Hc) as (Hd & Hv & Hgen). by destruct c. }
    rewrite (checkForInterrupt_unfold _ _ _ Hc). cbv zeta.
    destruct (wrap32 (_interruptCounter c - 1) =? 0).
    + destruct (opCtx c) as [oc|]; simpl.
      * unfold OperationContext_checkForInterrupt. simpl.
        destruct (w_opCtxs w !! oc) as [o|]; simpl;
          [destruct (interruptPending o); simpl|];
          (eapply all_well_formed_insert; [exact Hall|apply Hwf|reflexivity]).
      * eapply all_well_formed_insert; [exact Hall|apply Hwf|reflexivity].
    + eapply all_well_formed_insert; [exact Hall|apply Hwf|reflexivity].
  - unfold ExpressionContext.checkForInterrupt, mbind, M_bind.
    by rewrite (ctx_get_None _ _ Hc).
Qed.

Lemma copyWith_well_formed this ns uuid uc w :
  all_well_formed w -> all_well_formed (ExpressionContext.copyWith this ns uuid uc w).2.
Proof.
  intros Hall. destruct (w_ctxs w !! this) as [p|] eqn:Hp.
  - rewrite (copyWith_unfold this ns uuid uc w p Hp). cbv zeta.
    eapply all_well_formed_insert; [exact Hall| |reflexivity].
    by split.
  - unfold ExpressionContext.copyWith, mbind, M_bind.
    by rewrite (ctx_get_None _ _ Hp).
Qed.

(** X7. Every constructor builds a context whose document and value
    comparators are the ones made from its collator and whose parse state
    draws ids from the context's own generator, and [copyWith],
    [setCollator], [temporarilyChangeCollator], the release of a collator
    stash and [checkForInterrupt] keep this for every context: it holds in
    every world reached from a world where it holds (the empty world is one)
    by any sequence of such calls. *)
Theorem contexts_stay_well_formed (ops : list CtxOp) (w : World)
    (Hwf : all_well_formed w) :
  all_well_formed (run_ops ops w).
Proof.
  revert w Hwf. induction ops as [|op ops IH]; intros w Hwf; [done|].
  unfold run_ops in *. simpl. apply IH.
  destruct op as [this|this k|this k|stash|this ns uuid uc
                  |opCtx request collator pi rn uuid mdp|opCtx collator nss rc mdp]; simpl.
  - by apply checkForInterrupt_well_formed.
  - by apply setCollator_well_formed.
  - by apply temporarilyChangeCollator_well_formed.
  - by apply setCollator_well_formed.
  - by apply copyWith_well_formed.
  - rewrite ctorFromRequest_unfold.
    eapply all_well_formed_insert; [exact Hwf| |reflexivity]. by split.
  - rewrite ctorWithStub_unfold.
    eapply all_well_formed_insert; [exact Hwf| |reflexivity]. by split.
Qed.

End Invariant.

Lemma contexts_stay_well_formed_witness :
  all_well_formed emptyWorld /\
  all_well_formed
    (run_ops (H := exampleExternals)
       [OpConstructWithStub None (Some (mkCollator 10%positive "fr")) "db.coll" None false;
        OpTemporarilyChangeCollator 1%positive None;
        OpCopyWith 1%positive "db.other" None None;
        OpCheckForInterrupt 2%positive]
       emptyWorld).
Proof.
  assert (Hempty : all_well_formed emptyWorld).
  { intros a c Hc. simpl in Hc. by rewrite lookup_empty in Hc. }
  split; [exact Hempty|].
  by apply (contexts_stay_well_formed (H := exampleExternals)).
Defined.

(** ** Copies: what they share with the parent *)

Section CopyFrame.
Context `{Externals}.

(** X8. [copyWith] adds one context at an address that was free and changes
    nothing else: the parent and every other context, the generators and the
    operation contexts are as before.  The collator of the copy is the one
    handed in - also when that is the null collator and the parent has one -
    and otherwise a new collator object with the parent's collation, or none
    when the parent has none; the parent keeps its own collator object. *)
Theorem copyWith_adds_one_context (w : World) (this : addr) (p : ExpressionContext)
    (ns : NamespaceString) (uuid : option UUID)
    (updatedCollator : option (option CollatorInterface))
    (Hctx : w_ctxs w !! this = Some p) :
  exists child w' c,
    ExpressionContext.copyWith this ns uuid updatedCollator w = (Ok child, w') /\
    w_ctxs w !! child = None /\
    w_ctxs w' = <[child := c]> (w_ctxs w) /\
    w_ctxs w' !! this = Some p /\
    w_gens w' = w_gens w /\
    w_opCtxs w' = w_opCtxs w /\
    match updatedCollator with
    | Some k => _collator c = k /\ w_nextObject w' = w_nextObject w
    | None =>
        match _collator p with
        | Some k =>
            _collator c = Some (mkCollator (w_nextObject w) (collation k)) /\
            w_nextObject w' = Pos.succ (w_nextObject w)
        | None => _collator c = None /\ w_nextObject w' = w_nextObject w
        end
    end.
Proof.
  pose proof (copyWith_unfold this ns uuid updatedCollator w p Hctx) as Hcopy.
  cbv zeta in Hcopy.
  assert (Hfree : w_ctxs w !! fresh (dom (w_ctxs w)) = None)
    by (apply not_elem_of_dom, is_fresh).
  assert (Hne : fresh (dom (w_ctxs w)) <> this).
  { intros Heq. rewrite Heq in Hfree. by rewrite Hctx in Hfree. }
  eexists _, _, _. split; [exact Hcopy|]. split; [exact Hfree|].
  simpl. split; [reflexivity|]. split; [by rewrite lookup_insert_ne|].
  unfold copy_collator.
  destruct updatedCollator as [k|]; [done|]. by destruct (_collator p).
Qed.

(** X9. After [copyWith], the parse state of the copy draws its ids from the
    generator inside the copy, and that generator stands where the parent's
    stood at the call: the first id the copy's generator hands out is the
    parent's next id.  The two generators are separate objects: advancing
    either one leaves the other where it was. *)
Theorem copyWith_copies_generator (w : World) (this : addr) (p : ExpressionContext)
    (ns : NamespaceString) (uuid : option UUID)
    (updatedCollator : option (option CollatorInterface))
    (Hctx : w_ctxs w !! this = Some p) :
  exists child w' c,
    ExpressionContext.copyWith this ns uuid updatedCollator w = (Ok child, w') /\
    w_ctxs w' !! child = Some c /\
    vps_idGenerator (variablesParseState c) = GenOfCtx child /\
    gen_load (vps_idGenerator (variablesParseState c)) w' = Some (_idGenerator (variables p)) /\
    gen_load (GenOfCtx this) w' = Some (_idGenerator (variables p)) /\
    (IdGenerator.generateId (_idGenerator (variables c))).1
      = IdGenerator._nextId (_idGenerator (variables p)) /\
    (forall g,
       gen_load (GenOfCtx this) (gen_store (GenOfCtx child) g w')
         = Some (_idGenerator (variables p)) /\
       gen_load (GenOfCtx child) (gen_store (GenOfCtx child) g w') = Some g /\
       gen_load (GenOfCtx child) (gen_store (GenOfCtx this) g w')
         = Some (_idGenerator (variables p))).
Proof.
  pose proof (copyWith_unfold this ns uuid updatedCollator w p Hctx) as Hcopy.
  cbv zeta in Hcopy.
  assert (Hne : fresh (dom (w_ctxs w)) <> this).
  { intros Heq. apply (is_fresh (dom (w_ctxs w))). rewrite Heq.
    apply elem_of_dom. by exists p. }
  eexists _, _, _. split; [exact Hcopy|].
  simpl. rewrite lookup_insert_eq. split; [reflexivity|]. simpl.
  split; [done|]. rewrite lookup_insert_eq. simpl. split; [done|].
  rewrite lookup_insert_ne by done. rewrite Hctx. simpl. split; [done|]. split; [done|].
  intros g. rewrite !lookup_alter_eq, !lookup_insert_eq.
  rewrite lookup_alter_ne by done. rewrite lookup_insert_ne by done. rewrite Hctx.
  rewrite lookup_alter_ne by done. rewrite lookup_insert_eq. done.
Qed.

End CopyFrame.

Lemma copyWith_adds_one_context_witness :
  exists child w' c,
    ExpressionContext.copyWith (H := exampleExternals) 1%positive "db.other" None None
      exampleWorld = (Ok child, w') /\
    w_ctxs exampleWorld !! child = None /\
    w_ctxs w' = <[child := c]> (w_ctxs exampleWorld) /\
    w_ctxs w' !! 1%positive = Some exampleContext /\
    _collator c = Some (mkCollator 20%positive "fr").
Proof.
  destruct (copyWith_adds_one_context (H := exampleExternals) exampleWorld 1%positive
              exampleContext "db.other" None None exampleWorld_context)
    as (child & w' & c & Hcopy & Hfree & Hctxs & Hp & _ & _ & Hcoll).
  exists child, w', c. split; [exact Hcopy|]. split; [exact Hfree|].
  split; [exact Hctxs|]. split; [exact Hp|]. exact (proj1 Hcoll).
Defined.

Lemma copyWith_copies_generator_witness :
  exists child w' c,
    ExpressionContext.copyWith (H := exampleExternals) 1%positive "db.other" None None
      exampleWorld = (Ok child, w') /\
    w_ctxs w' !! child = Some c /\
    gen_load (vps_idGenerator (variablesParseState c)) w' = Some IdGenerator.init /\
    (IdGenerator.generateId (_idGenerator (variables c))).1 = 0.
Proof.
  destruct (copyWith_copies_generator (H := exampleExternals) exampleWorld 1%positive
              exampleContext "db.other" None None exampleWorld_context)
    as (child & w' & c & Hcopy & Hc & _ & Hgen & _ & Hid & _).
  exists child, w', c. split; [exact Hcopy|]. split; [exact Hc|].
  split; [exact Hgen | exact Hid].
Defined.

(** ** Collator overrides: round trips, nesting and copies *)

Lemma set_ctxs_same w : set_ctxs (w_ctxs w) w = w.
Proof. by destruct w. Qed.

(** Releasing a stash on the world its acquisition left gives back the world
    before the acquisition, when the comparators matched the collator. *)
Lemma override_release this k w c :
  w_ctxs w !! this = Some c ->
  _documentComparator c = mkDocumentComparator (collator_get (_collator c)) ->
  _valueComparator c = mkValueComparator (collator_get (_collator c)) ->
  exists s1 w1 c1,
    ExpressionContext.temporarilyChangeCollator this k w = (Ok s1, w1) /\
    w_ctxs w1 !! this = Some c1 /\
    _collator c1 = k /\
    _documentComparator c1 = mkDocumentComparator (collator_get (_collator c1)) /\
    _valueComparator c1 = mkValueComparator (collator_get (_collator c1)) /\
    ExpressionContext.CollatorStash.dtor s1 w1 = (Ok tt, w).
Proof.
  intros Hc Hd Hv.
  rewrite (temporarilyChangeCollator_unfold _ _ _ _ Hc).
  eexists _, _, _. split; [reflexivity|].
  simpl. rewrite lookup_insert_eq. split; [reflexivity|].
  split; [by destruct c|]. split; [by destruct c|]. split; [by destruct c|].
  unfold ExpressionContext.CollatorStash.dtor. simpl.
  erewrite setCollator_unfold by (simpl; apply lookup_insert_eq).
  simpl. rewrite insert_insert_eq. f_equal.
  replace (set_comparators (mkDocumentComparator (collator_get (_collator c)))
             (mkValueComparator (collator_get (_collator c)))
             (set_collator (_collator c)
                (set_comparators (mkDocumentComparator (collator_get k))
                   (mkValueComparator (collator_get k)) (set_collator k c))))
    with c by (destruct c; simpl in *; by subst).
  rewrite insert_id by done. by destruct w.
Qed.

(** X10. On a context whose comparators are the ones made from its collator
    (as every constructor leaves it), acquiring a collator override and
    releasing the handle gives back exactly the world before the acquisition;
    and overrides nest: with a second override acquired and released inside
    the first, the release of the inner handle gives back the world the outer
    acquisition left, with the outer override active. *)
Theorem collator_override_round_trip (w : World) (this : addr) (c : ExpressionContext)
    (k1 : option CollatorInterface)
    (Hctx : w_ctxs w !! this = Some c)
    (Hdoc : _documentComparator c = mkDocumentComparator (collator_get (_collator c)))
    (Hval : _valueComparator c = mkValueComparator (collator_get (_collator c))) :
  exists s1 w1 c1,
    ExpressionContext.temporarilyChangeCollator this k1 w = (Ok s1, w1) /\
    w_ctxs w1 !! this = Some c1 /\ _collator c1 = k1 /\
    ExpressionContext.CollatorStash.dtor s1 w1 = (Ok tt, w) /\
    (forall k2,
       exists s2 w2 c2,
         ExpressionContext.temporarilyChangeCollator this k2 w1 = (Ok s2, w2) /\
         w_ctxs w2 !! this = Some c2 /\ _collator c2 = k2 /\
         ExpressionContext.CollatorStash.dtor s2 w2 = (Ok tt, w1)).
Proof.
  destruct (override_release this k1 w c Hctx Hdoc Hval)
    as (s1 & w1 & c1 & Hacq & Hc1 & Hk1 & Hd1 & Hv1 & Hrel).
  exists s1, w1, c1. split; [exact Hacq|]. split; [exact Hc1|]. split; [exact Hk1|].
  split; [exact Hrel|].
  intros k2.
  destruct (override_release this k2 w1 c1 Hc1 Hd1 Hv1)
    as (s2 & w2 & c2 & Hacq2 & Hc2 & Hk2 & _ & _ & Hrel2).
  by exists s2, w2, c2.
Qed.

(** X11. Two overrides released in the order they were acquired, not in
    reverse: the release of the first handle installs the original collator
    while the second handle is still held, and the release of the second
    handle then installs the first override.  The context ends with the first
    override and its comparators, not with its original collator. *)
Theorem collator_overrides_released_out_of_order (w : World) (this : addr)
    (c : ExpressionContext) (k1 k2 : option CollatorInterface)
    (Hctx : w_ctxs w !! this = Some c) :
  exists s1 w1 s2 w2 w3 c3 w4 c4,
    ExpressionContext.temporarilyChangeCollator this k1 w = (Ok s1, w1) /\
    ExpressionContext.temporarilyChangeCollator this k2 w1 = (Ok s2, w2) /\
    ExpressionContext.CollatorStash.dtor s1 w2 = (Ok tt, w3) /\
    w_ctxs w3 !! this = Some c3 /\ _collator c3 = _collator c /\
    ExpressionContext.CollatorStash.dtor s2 w3 = (Ok tt, w4) /\
    w_ctxs w4 !! this = Some c4 /\ _collator c4 = k1 /\
    _documentComparator c4 = mkDocumentComparator (collator_get k1) /\
    _valueComparator c4 = mkValueComparator (collator_get k1).
Proof.
  pose proof (temporarilyChangeCollator_unfold this k1 w c Hctx) as H1.
  match type of H1 with _ = (Ok ?s, ?x) => set (s1 := s) in *; set (w1 := x) in * end.
  assert (Hc1 : w_ctxs w1 !! this
                = Some (set_comparators (mkDocumentComparator (collator_get k1))
                          (mkValueComparator (collator_get k1)) (set_collator k1 c)))
    by (unfold w1; simpl; apply lookup_insert_eq).
  pose proof (temporarilyChangeCollator_unfold this k2 w1 _ Hc1) as H2.
  match type of H2 with _ = (Ok ?s, ?x) => set (s2 := s) in *; set (w2 := x) in * end.
  assert (Hc2 : w_ctxs w2 !! this
                = Some (set_comparators (mkDocumentComparator (collator_get k2))
                          (mkValueComparator (collator_get k2))
                          (set_collator k2
                             (set_comparators (mkDocumentComparator (collator_get k1))
                                (mkValueComparator (collator_get k1)) (set_collator k1 c)))))
    by (unfold w2; simpl; apply lookup_insert_eq).
  pose proof (setCollator_unfold this (_collator c) w2 _ Hc2) as H3.
  match type of H3 with _ = (Ok tt, ?x) => set (w3 := x) in * end.
  assert (Hc3 : w_ctxs w3 !! this = Some _)
    by (unfold w3; simpl; apply lookup_insert_eq).
  pose proof (setCollator_unfold this k1 w3 _ Hc3) as H4.
  match type of H4 with _ = (Ok tt, ?x) => set (w4 := x) in * end.
  assert (Hc4 : w_ctxs w4 !! this = Some _)
    by (unfold w4; simpl; apply lookup_insert_eq).
  eexists s1, w1, s2, w2, w3, _, w4, _.
  split; [exact H1|]. split; [exact H2|].
  split; [unfold ExpressionContext.CollatorStash.dtor; exact H3|].
  split; [exact Hc3|]. split; [by destruct c|].
  split.
  { unfold ExpressionContext.CollatorStash.dtor. simpl. rewrite <- H4.
    f_equal. by destruct c. }
  split; [exact Hc4|]. by destruct c.
Qed.

(** X12. A copy made by [copyWith] (without a collator of its own) while an
    override is active gets a new collator object with the collation of the
    override, not of the stashed original; releasing the handle afterwards
    restores the parent's original collator and leaves the copy with the
    override's collation. *)
Theorem copy_during_override (H : Externals) (w : World) (this : addr)
    (c : ExpressionContext) (k : CollatorInterface) (ns : NamespaceString)
    (uuid : option UUID) (Hctx : w_ctxs w !! this = Some c) :
  exists s w1 child w2 w3 c3 cc,
    ExpressionContext.temporarilyChangeCollator this (Some k) w = (Ok s, w1) /\
    ExpressionContext.copyWith this ns uuid None w1 = (Ok child, w2) /\
    ExpressionContext.CollatorStash.dtor s w2 = (Ok tt, w3) /\
    child <> this /\
    w_ctxs w3 !! this = Some c3 /\ _collator c3 = _collator c /\
    w_ctxs w3 !! child = Some cc /\
    _collator cc = Some (mkCollator (w_nextObject w) (collation k)) /\
    _documentComparator cc = mkDocumentComparator (Some (w_nextObject w)).
Proof.
  pose proof (temporarilyChangeCollator_unfold this (Some k) w c Hctx) as H1.
  match type of H1 with _ = (Ok ?s, ?x) => set (s1 := s) in *; set (w1 := x) in * end.
  assert (Hc1 : w_ctxs w1 !! this
                = Some (set_comparators (mkDocumentComparator (collator_get (Some k)))
                          (mkValueComparator (collator_get (Some k)))
                          (set_collator (Some k) c)))
    by (unfold w1; simpl; apply lookup_insert_eq).
  pose proof (copyWith_unfold this ns uuid None w1 _ Hc1) as H2. cbv zeta in H2.
  assert (Hne : fresh (dom (w_ctxs w1)) <> this).
  { intros Heq. apply (is_fresh (dom (w_ctxs w1))). rewrite Heq.
    apply elem_of_dom. eauto. }
  match type of H2 with _ = (Ok ?a, ?x) => set (child := a) in *; set (w2 := x) in * end.
  assert (Hc2 : w_ctxs w2 !! this
                = Some (set_comparators (mkDocumentComparator (collator_get (Some k)))
                          (mkValueComparator (collator_get (Some k)))
                          (set_collator (Some k) c))).
  { unfold w2. simpl. rewrite lookup_insert_ne by exact Hne. exact Hc1. }
  pose proof (setCollator_unfold this (_collator c) w2 _ Hc2) as H3.
  match type of H3 with _ = (Ok tt, ?x) => set (w3 := x) in * end.
  eexists s1, w1, child, w2, w3, _, _.
  split; [exact H1|]. split; [exact H2|].
  split; [unfold ExpressionContext.CollatorStash.dtor; exact H3|].
  split; [exact Hne|].
  split; [unfold w3; simpl; apply lookup_insert_eq|]. split; [by destruct c|].
  split.
  { unfold w3. simpl. rewrite lookup_insert_ne by (intros Heq; apply Hne; by rewrite Heq).
    unfold w2. simpl. apply lookup_insert_eq. }
  unfold copy_collator. destruct c; simpl. done.
Qed.

Lemma collator_override_round_trip_witness :
  exists s1 w1 c1,
    ExpressionContext.temporarilyChangeCollator 1%positive
      (Some (mkCollator 11%positive "de")) exampleWorld = (Ok s1, w1) /\
    w_ctxs w1 !! 1%positive = Some c1 /\
    _collator c1 = Some (mkCollator 11%positive "de") /\
    ExpressionContext.CollatorStash.dtor s1 w1 = (Ok tt, exampleWorld).
Proof.
  destruct (collator_override_round_trip exampleWorld 1%positive exampleContext
              (Some (mkCollator 11%positive "de")) exampleWorld_context eq_refl eq_refl)
    as (s1 & w1 & c1 & Hacq & Hc1 & Hk1 & Hrel & _).
  exists s1, w1, c1. split; [exact Hacq|]. split; [exact Hc1|].
  split; [exact Hk1 | exact Hrel].
Defined.

Lemma collator_overrides_released_out_of_order_witness :
  exists s1 w1 s2 w2 w3 w4 c4,
    ExpressionContext.temporarilyChangeCollator 1%positive
      (Some (mkCollator 11%positive "de")) exampleWorld = (Ok s1, w1) /\
    ExpressionContext.temporarilyChangeCollator 1%positive
      (Some (mkCollator 12%positive "es")) w1 = (Ok s2, w2) /\
    ExpressionContext.CollatorStash.dtor s1 w2 = (Ok tt, w3) /\
    ExpressionContext.CollatorStash.dtor s2 w3 = (Ok tt, w4) /\
    w_ctxs w4 !! 1%positive = Some c4 /\
    _collator c4 = Some (mkCollator 11%positive "de").
Proof.
  destruct (collator_overrides_released_out_of_order exampleWorld 1%positive
              exampleContext (Some (mkCollator 11%positive "de"))
              (Some (mkCollator 12%positive "es")) exampleWorld_context)
    as (s1 & w1 & s2 & w2 & w3 & c3 & w4 & c4 & H1 & H2 & H3 & _ & _ & H4 & Hc4 & Hk & _).
  exists s1, w1, s2, w2, w3, w4, c4.
  split; [exact H1|]. split; [exact H2|]. split; [exact H3|]. split; [exact H4|].
  split; [exact Hc4 | exact Hk].
Defined.

Lemma copy_during_override_witness :
  exists s w1 child w2 w3 c3 cc,
    ExpressionContext.temporarilyChangeCollator 1%positive
      (Some (mkCollator 11%positive "de")) exampleWorld = (Ok s, w1) /\
    ExpressionContext.copyWith (H := exampleExternals) 1%positive "db.other" None None w1
      = (Ok child, w2) /\
    ExpressionContext.CollatorStash.dtor s w2 = (Ok tt, w3) /\
    w_ctxs w3 !! 1%positive = Some c3 /\
    _collator c3 = Some (mkCollator 10%positive "fr") /\
    w_ctxs w3 !! child = Some cc /\
    _collator cc = Some (mkCollator 20%positive "de").
Proof.
  destruct (copy_during_override exampleExternals exampleWorld 1%positive exampleContext
              (mkCollator 11%positive "de") "db.other" None exampleWorld_context)
    as (s & w1 & child & w2 & w3 & c3 & cc & H1 & H2 & H3 & _ & Hc3 & Hk3 & Hcc & Hkc & _).
  exists s, w1, child, w2, w3, c3, cc.
  split; [exact H1|]. split; [exact H2|]. split; [exact H3|]. split; [exact Hc3|].
  split; [exact Hk3|]. split; [exact Hcc | exact Hkc].
Defined.

(** ** Generated ids and builtin ids *)

Lemma generateIds_elem_of n g x :
  0 <= IdGenerator._nextId g ->
  IdGenerator._nextId g + Z.of_nat n <= 2 ^ 63 ->
  x ∈ (IdGenerator.generateIds n g).1 ->
  IdGenerator._nextId g <= x < IdGenerator._nextId g + Z.of_nat n.
Proof.
  intros Hlo Hhi Hx. apply list_elem_of_lookup in Hx as [i Hi].
  assert (Hlt : (i < n)%nat).
  { rewrite <- (generateIds_length n g). by eapply lookup_lt_Some. }
  rewrite generateIds_lookup in Hi by done. injection Hi as <-. lia.
Qed.

(** X13. The ids that [generateId] hands out from a counter [k >= 0], within
    [int64_t], are never taken for builtin variables: each one is classified
    as user-defined by [isUserDefinedVariable], differs from the six builtin
    ids, has no builtin name in any table whose ids are not user-defined, and
    in a [Variables] without let parameters [hasValue] answers false for it
    (while it answers true for every id that is not user-defined). *)
Theorem generated_ids_are_user_ids (g : IdGenerator.t) (n : nat) (x : Id)
    (Hlo : 0 <= IdGenerator._nextId g)
    (Hhi : IdGenerator._nextId g + Z.of_nat n <= 2 ^ 63)
    (Hx : x ∈ (IdGenerator.generateIds n g).1) :
  Variables.isUserDefinedVariable x = true /\
  (x ∉ [Variables.kRootId; Variables.kRemoveId; Variables.kNowId;
        Variables.kClusterTimeId; Variables.kJsScopeId; Variables.kIsMapReduceId]) /\
  (forall table,
     Forall (fun e => Variables.isUserDefinedVariable e.2 = false) table ->
     getBuiltinVariableName table x = EmptyString) /\
  (forall vars,
     _letParametersMap vars = ∅ ->
     Variables.hasValue x vars = false /\
     forall y, Variables.isUserDefinedVariable y = false -> Variables.hasValue y vars = true).
Proof.
  pose proof (generateIds_elem_of n g x Hlo Hhi Hx) as [Hge _].
  assert (Huser : Variables.isUserDefinedVariable x = true).
  { unfold Variables.isUserDefinedVariable. apply Z.leb_le. lia. }
  split; [exact Huser|]. split; [|split].
  - unfold Variables.kRootId, Variables.kRemoveId, Variables.kNowId,
      Variables.kClusterTimeId, Variables.kJsScopeId, Variables.kIsMapReduceId.
    rewrite !not_elem_of_cons. repeat split; try lia. apply not_elem_of_nil.
  - intros table Htable. apply getBuiltinVariableName_absent.
    intros Hin. apply list_elem_of_fmap in Hin as ([name id] & -> & Hin).
    rewrite Forall_forall in Htable. specialize (Htable _ Hin). simpl in *.
    congruence.
  - intros vars Hlet. split.
    + unfold Variables.hasValue. rewrite Hlet, lookup_empty.
      destruct (x <? 0) eqn:E; [apply Z.ltb_lt in E; lia | done].
    + intros y Hy. unfold Variables.hasValue, Variables.isUserDefinedVariable in *.
      apply Z.leb_gt in Hy. by destruct (y <? 0) eqn:E; [|apply Z.ltb_ge in E; lia].
Qed.

Lemma generated_ids_are_user_ids_witness :
  Variables.isUserDefinedVariable 6 = true /\
  getBuiltinVariableName exampleBuiltinNames 6 = EmptyString /\
  Variables.hasValue 6 Variables.init = false.
Proof.
  assert (Hlo : 0 <= IdGenerator._nextId (IdGenerator.mk 5)) by (simpl; lia).
  assert (Hhi : IdGenerator._nextId (IdGenerator.mk 5) + Z.of_nat 3 <= 2 ^ 63)
    by (simpl; lia).
  assert (Hx : 6 ∈ (IdGenerator.generateIds 3 (IdGenerator.mk 5)).1).
  { simpl. apply list_elem_of_further, list_elem_of_here. }
  destruct (generated_ids_are_user_ids (IdGenerator.mk 5) 3 6 Hlo Hhi Hx)
    as (Huser & _ & Hname & Hval).
  split; [exact Huser|]. split.
  - apply Hname. unfold exampleBuiltinNames. repeat constructor.
  - exact (proj1 (Hval Variables.init eq_refl)).
Defined.
